(** * Color Identifier: the capture controller of [App.tsx]

    A shallow embedding of the behavioural core of the camera colour
    identifier (second revision of [App.tsx], the one with the colord /
    chroma-js naming chain) and the properties its specification states.

    Conventions of the embedding:
    - a JavaScript number that is known to be finite is a rational [Q]
      (every finite double is one); integer-valued numbers that the code
      only adds, compares or prints are [Z]; a number that may be [NaN]
      is an [option] whose [None] is [NaN]; where the rounding of a double
      operation can move a sampling window, the operation is rounded with
      [Binary64.round];
    - a JavaScript string is a [string] of ASCII characters (the strings of
      this program are hex codes, decimal numerals and CSS colour names),
      on which [toUpperCase] changes the letters a to z only;
    - [undefined] is [None];
    - the browser (canvas read-back, pointer geometry) and the two naming
      libraries are parameters of the functions that call them. *)

From Stdlib Require Import ZArith QArith Qround Qabs Qreduction Qpower Lia Lqa
  Ascii.
From Stdlib Require Import DecimalString HexadecimalString.
From Stdlib Require DecimalZ HexadecimalZ HexadecimalPos.
From stdpp Require Import base option list strings gmap.

Local Open Scope Z_scope.

(** ** JavaScript primitives used by the program *)

Module JS.

(** [Number.prototype.toString(16)] on an integer-valued number: lowercase
    digits, no leading zero, a minus sign for negative values. *)
Definition toString16 (c : Z) : string :=
  HexadecimalString.NilZero.string_of_int (Z.to_hex_int c).

(** [Number.prototype.toString()] (radix 10) on an integer-valued number,
    which is what a template literal applies to it. *)
Definition toString10 (c : Z) : string :=
  DecimalString.NilZero.string_of_int (Z.to_int c).

(** [parseInt(s, 16)] on a string of hex digits ([None] is [NaN]). *)
Definition parseInt16 (s : string) : option Z :=
  Z.of_hex_int <$> HexadecimalString.NilZero.int_of_string s.

(** [String.prototype.toUpperCase] on one character. *)
Definition upperChar (c : ascii) : ascii :=
  let n := N_of_ascii c in
  if ((97 <=? n) && (n <=? 122))%N then ascii_of_N (n - 32) else c.

Fixpoint toUpperCase (s : string) : string :=
  match s with
  | EmptyString => EmptyString
  | String c s' => String (upperChar c) (toUpperCase s')
  end.

(** [s.charAt(0)]: the first character as a string, or the empty string. *)
Definition charAt0 (s : string) : string :=
  match s with
  | EmptyString => EmptyString
  | String c _ => String c EmptyString
  end.

(** [s.slice(1)]. *)
Definition slice1 (s : string) : string :=
  match s with
  | EmptyString => EmptyString
  | String _ s' => s'
  end.

(** [s.split(' ')]: one more piece than there are spaces; pieces may be
    empty. *)
Fixpoint split_space (s : string) : list string :=
  match s with
  | EmptyString => [EmptyString]
  | String c s' =>
      if Ascii.eqb c " "%char then EmptyString :: split_space s'
      else match split_space s' with
           | [] => [String c EmptyString]
           | w :: ws => String c w :: ws
           end
  end.

(** [pieces.join(' ')]. *)
Fixpoint join_space (ws : list string) : string :=
  match ws with
  | [] => EmptyString
  | [w] => w
  | w :: ws' => w +:+ String " "%char (join_space ws')
  end.

(** Truthiness of a [string | undefined] value. *)
Definition truthy (v : option string) : bool :=
  match v with
  | None => false
  | Some EmptyString => false
  | Some _ => true
  end.

(** [Math.round]: the nearest integer, a tie going up. *)
Definition Math_round (x : Q) : Z := Qfloor (x + (1 # 2)).

Definition Math_min (x y : Q) : Q := if Qle_bool x y then x else y.
Definition Math_max (x y : Q) : Q := if Qle_bool x y then y else x.

(** [Math.floor] of a quotient of two integers. *)
Definition Math_floor_div (a b : Z) : Z := Qfloor (inject_Z a / inject_Z b).

End JS.

(** ** Double-precision rounding

    The result of an arithmetic operation on doubles is the double nearest
    to the exact result, a tie going to the even significand.
    [Binary64.round x] is that double for every [x] of magnitude below
    2^52, the subnormal range included.  At 2^52 and above, where every
    double is an integer, the number is kept as it is: the embedding takes
    the integers of the program (the dimensions of a source, which the DOM
    keeps below 2^32) as exact integers whatever their size. *)

Module Binary64.

(** [2^k] for an integer [k] of either sign. *)
Definition pow2 (k : Z) : Q :=
  if 0 <=? k then inject_Z (2 ^ k) else 1 # Z.to_pos (2 ^ (- k)).

(** The integer part of the binary logarithm of a positive rational. *)
Definition ilog2 (a : Q) : Z :=
  if Qle_bool 1 a then Z.log2 (Qfloor a)
  else - Z.log2_up (Qceiling (/ a)).

(** The nearest integer, a tie going to the even one. *)
Definition roundHalfEven (q : Q) : Z :=
  let f := Qfloor q in
  match (q - inject_Z f ?= 1 # 2)%Q with
  | Lt => f
  | Gt => f + 1
  | Eq => if Z.even f then f else f + 1
  end.

(** The significand has 53 bits; the exponent of its last bit is at
    least -1074. *)
Definition round (x : Q) : Q :=
  let q := Qred x in
  let a := Qabs q in
  if Qle_bool a 0 then q
  else if Qle_bool (pow2 52) a then q
  else
    let e := Z.max (ilog2 a - 52) (-1074) in
    let m := roundHalfEven (a / pow2 e) in
    Qred ((if Qle_bool 0 q then 1 else -1) * inject_Z m * pow2 e).

End Binary64.

Arguments Binary64.round : simpl never.

(** ** Helper functions of [App.tsx] *)

Definition componentToHex (c : Z) : string :=
  let hex := JS.toString16 c in
  if (String.length hex =? 1)%nat then "0" +:+ hex else hex.

Definition rgbToHex (r g b : Z) : string :=
  "#" +:+ componentToHex r +:+ componentToHex g +:+ componentToHex b.

(** The [rgb] field of a sample: the template [rgb(${r}, ${g}, ${b})]. *)
Definition rgbString (r g b : Z) : string :=
  "rgb(" +:+ JS.toString10 r +:+ ", " +:+ JS.toString10 g +:+ ", "
         +:+ JS.toString10 b +:+ ")".

(** ** Reading a hex code back (specification side)

    The program only prints hex codes; the reverse direction is what the
    naming libraries and the CSS engine do with them.  It is defined here
    from the specification's words so that the round trip can be stated. *)

Definition hexDigit (d : Z) : ascii :=
  match String.get (Z.to_nat d) "0123456789abcdef" with
  | Some c => c
  | None => "?"%char
  end.

(** The zero-padded two-digit lowercase hex of a channel. *)
Definition hex2 (c : Z) : string :=
  String (hexDigit (c / 16)) (String (hexDigit (c mod 16)) EmptyString).

(** [#rrggbb] to its three channels. *)
Definition hexToRgb (s : string) : option (Z * Z * Z) :=
  match s with
  | String "#" rest =>
      if (String.length rest =? 6)%nat then
        r ← JS.parseInt16 (String.substring 0 2 rest);
        g ← JS.parseInt16 (String.substring 2 2 rest);
        b ← JS.parseInt16 (String.substring 4 2 rest);
        Some (r, g, b)
      else None
  | _ => None
  end.

Definition byte_hex_ok (c : Z) : bool :=
  String.eqb (componentToHex c) (hex2 c)
  && match JS.parseInt16 (hex2 c) with
     | Some c' => c' =? c
     | None => false
     end.

(** ** Calls into the naming libraries

    A library call either returns or throws, and the order of the calls is
    observable.  Computations that call the libraries run in a small monad
    that threads the log of calls made so far and lets an exception escape
    unless a [try]/[catch] stops it. *)

Inductive Call :=
| CallColord (hex : string)   (* colord(hex).toName() *)
| CallChroma (hex : string).  (* chroma(hex).name()   *)

Inductive Outcome (A : Type) :=
| Value (a : A)
| Raised.
Arguments Value {A} a.
Arguments Raised {A}.

Definition M (A : Type) : Type := list Call → Outcome A * list Call.

Definition ret {A} (a : A) : M A := λ log, (Value a, log).

Definition bind {A B} (m : M A) (k : A → M B) : M B :=
  λ log, match m log with
         | (Value a, log') => k a log'
         | (Raised, log') => (Raised, log')
         end.

(** [try { m } catch (e) { handler }] *)
Definition try_catch {A} (m : M A) (handler : M A) : M A :=
  λ log, match m log with
         | (Value a, log') => (Value a, log')
         | (Raised, log') => handler log'
         end.

#[global] Instance M_ret : MRet M := @ret.
#[global] Instance M_bind : MBind M := λ A B k m, bind m k.

Definition run {A} (m : M A) : Outcome A * list Call := m [].

(** What a library does when asked for a name: it returns a string or
    [undefined], or it throws. *)
Inductive Reply :=
| Returns (v : option string)
| Throws.

Definition Resolver := string → Reply.

Definition call (mk : string → Call) (lib : Resolver) (hex : string)
  : M (option string) :=
  λ log, match lib hex with
         | Returns v => (Value v, log ++ [mk hex])
         | Throws => (Raised, log ++ [mk hex])
         end.

(** ** Colour naming in [captureColor] *)

Section Naming.

(** colord with its names plugin, and chroma-js. *)
Variable colord_toName : Resolver.
Variable chroma_name : Resolver.

(** The two [try] blocks: the value of [colorName] after them. *)
Definition resolveColorName (hex : string) : M (option string) :=
  colorName ← try_catch (call CallColord colord_toName hex) (ret None);
  if negb (JS.truthy colorName)
  then try_catch (call CallChroma chroma_name hex) (ret colorName)
  else ret colorName.

(** [w.charAt(0).toUpperCase() + w.slice(1)] *)
Definition capitalizeWord (w : string) : string :=
  JS.toUpperCase (JS.charAt0 w) +:+ JS.slice1 w.

Definition capitalizeWords (name : string) : string :=
  JS.join_space (map capitalizeWord (JS.split_space name)).

Definition displayNameOf (colorName : option string) (hex : string) : string :=
  match colorName with
  | Some name => if JS.truthy colorName then capitalizeWords name
                 else JS.toUpperCase hex
  | None => JS.toUpperCase hex
  end.

(** From the sampled hex code to the [name] field of the sample. *)
Definition nameColor (hex : string) : M string :=
  colorName ← resolveColorName hex;
  ret (displayNameOf colorName hex).

End Naming.

(** ** Data of the application *)

(** [{ x: number; y: number }] *)
Module Point.
Record t := mk { x : Q; y : Q }.
End Point.
Abbreviation CrosshairPosition := Point.t.

Record AppColorData := mkColor {
  hex : string;
  rgb : string;
  name : string;
  r : Z;
  g : Z;
  b : Z;
}.

Inductive TrackState := Live | Ended.

(** A [MediaStream] is the list of its tracks; a track is a key of the
    track store, which holds the state shared by every handle on it. *)
Record MediaStream := mkStream { getTracks : list nat }.

Module Video.
Record t := mk {
  srcObject : option MediaStream;
  paused : bool;
  readyState : Z;
  videoWidth : Z;
  videoHeight : Z;
}.
End Video.

Module Canvas.
(** [context2d] says whether [getContext('2d')] gives a context. *)
Record t := mk { width : Z; height : Z; context2d : bool }.
End Canvas.

Module DOMRect.
Record t := mk { left : Q; top : Q; width : Q; height : Q }.
End DOMRect.

(** A click on the freeze-frame canvas, with the canvas' bounding rectangle
    at that moment ([event.currentTarget.getBoundingClientRect()]). *)
Record MouseEvent := mkMouse {
  clientX : Q;
  clientY : Q;
  boundingClientRect : DOMRect.t;
}.

(** The state of the [App] component: its [useState] cells, its refs (a
    ref holds [None] while the element is not mounted) and the tracks of
    the camera. *)
Record App := mkApp {
  colorData : option AppColorData;
  isCameraOn : bool;
  isFrozen : bool;
  crosshairPosition : CrosshairPosition;
  isStartingCamera : bool;
  streamRef : option MediaStream;
  videoRef : option Video.t;
  freezeFrameCanvasRef : option Canvas.t;
  samplingCanvasRef : option Canvas.t;
  tracks : gmap nat TrackState;
}.

Definition setColorData (v : option AppColorData) (a : App) : App :=
  mkApp v (isCameraOn a) (isFrozen a) (crosshairPosition a)
        (isStartingCamera a) (streamRef a) (videoRef a)
        (freezeFrameCanvasRef a) (samplingCanvasRef a) (tracks a).

Definition setIsCameraOn (v : bool) (a : App) : App :=
  mkApp (colorData a) v (isFrozen a) (crosshairPosition a)
        (isStartingCamera a) (streamRef a) (videoRef a)
        (freezeFrameCanvasRef a) (samplingCanvasRef a) (tracks a).

Definition setIsFrozen (v : bool) (a : App) : App :=
  mkApp (colorData a) (isCameraOn a) v (crosshairPosition a)
        (isStartingCamera a) (streamRef a) (videoRef a)
        (freezeFrameCanvasRef a) (samplingCanvasRef a) (tracks a).

Definition setCrosshairPosition (v : CrosshairPosition) (a : App) : App :=
  mkApp (colorData a) (isCameraOn a) (isFrozen a) v
        (isStartingCamera a) (streamRef a) (videoRef a)
        (freezeFrameCanvasRef a) (samplingCanvasRef a) (tracks a).

Definition setIsStartingCamera (v : bool) (a : App) : App :=
  mkApp (colorData a) (isCameraOn a) (isFrozen a) (crosshairPosition a)
        v (streamRef a) (videoRef a)
        (freezeFrameCanvasRef a) (samplingCanvasRef a) (tracks a).

Definition setStreamRef (v : option MediaStream) (a : App) : App :=
  mkApp (colorData a) (isCameraOn a) (isFrozen a) (crosshairPosition a)
        (isStartingCamera a) v (videoRef a)
        (freezeFrameCanvasRef a) (samplingCanvasRef a) (tracks a).

Definition setVideo (v : option Video.t) (a : App) : App :=
  mkApp (colorData a) (isCameraOn a) (isFrozen a) (crosshairPosition a)
        (isStartingCamera a) (streamRef a) v
        (freezeFrameCanvasRef a) (samplingCanvasRef a) (tracks a).

Definition setFreezeFrameCanvas (v : option Canvas.t) (a : App) : App :=
  mkApp (colorData a) (isCameraOn a) (isFrozen a) (crosshairPosition a)
        (isStartingCamera a) (streamRef a) (videoRef a)
        v (samplingCanvasRef a) (tracks a).

Definition setSamplingCanvas (v : option Canvas.t) (a : App) : App :=
  mkApp (colorData a) (isCameraOn a) (isFrozen a) (crosshairPosition a)
        (isStartingCamera a) (streamRef a) (videoRef a)
        (freezeFrameCanvasRef a) v (tracks a).

Definition setTracks (v : gmap nat TrackState) (a : App) : App :=
  mkApp (colorData a) (isCameraOn a) (isFrozen a) (crosshairPosition a)
        (isStartingCamera a) (streamRef a) (videoRef a)
        (freezeFrameCanvasRef a) (samplingCanvasRef a) v.

(** ** The sampling window *)

Definition sampleSize : Z := 5.
Definition halfSampleSize : Z := JS.Math_floor_div sampleSize 2.
Definition pixelCount : Z := sampleSize * sampleSize.

(** [centerX] and [centerY].  While frozen, [crosshairPosition.x] is the
    double nearest to the stored rational (the stored number itself when
    it is a double) and [*] is the product of doubles; while live, the half
    of an integer dimension is exact. *)
Definition sampleCenter (isFrozen : bool) (crosshairPosition : CrosshairPosition)
    (sourceWidth sourceHeight : Z) : Q * Q :=
  ((if isFrozen
    then Binary64.round
           (Binary64.round (Point.x crosshairPosition) * inject_Z sourceWidth)
    else inject_Z sourceWidth / 2)%Q,
   (if isFrozen
    then Binary64.round
           (Binary64.round (Point.y crosshairPosition) * inject_Z sourceHeight)
    else inject_Z sourceHeight / 2)%Q).

(** [sx] from [centerX] and [sourceWidth]; [sy] likewise. *)
Definition windowCorner (center : Q) (sourceDimension : Z) : Z :=
  JS.Math_round
    (JS.Math_max 0
       (JS.Math_min (center - inject_Z halfSampleSize)
                    (inject_Z sourceDimension - inject_Z sampleSize))).

(** ** Averaging the window *)

(** [total += pixelData[i]]: reading past the end gives [undefined], and
    the total becomes [NaN]. *)
Definition addEntry (total : option Z) (entry : option Z) : option Z :=
  match total, entry with
  | Some t, Some e => Some (t + e)
  | _, _ => None
  end.

(** The [for (let i = 0; i < pixelData.length; i += 4)] loop.  The fuel
    bounds the number of iterations; [length pixelData] is always enough
    (lemma [sumLoop_fuel]). *)
Fixpoint sumLoop (fuel : nat) (i : nat) (pixelData : list Z)
    (totals : option Z * option Z * option Z)
  : option Z * option Z * option Z :=
  match fuel with
  | O => totals
  | S fuel' =>
      if (i <? length pixelData)%nat then
        let '(totalR, totalG, totalB) := totals in
        sumLoop fuel' (i + 4) pixelData
          (addEntry totalR (pixelData !! i),
           addEntry totalG (pixelData !! (i + 1)%nat),
           addEntry totalB (pixelData !! (i + 2)%nat))
      else totals
  end.

(** [Math.round(total / pixelCount)] *)
Definition averageChannel (total : option Z) : option Z :=
  (λ t, JS.Math_round (inject_Z t / inject_Z pixelCount)) <$> total.

(** The values of [r], [g] and [b] after the loop. *)
Definition sampleAverage (pixelData : list Z)
  : option Z * option Z * option Z :=
  let '(totalR, totalG, totalB) :=
    sumLoop (length pixelData) 0 pixelData (Some 0, Some 0, Some 0) in
  (averageChannel totalR, averageChannel totalG, averageChannel totalB).

(** ** The handlers of [App] *)

Inductive Source := FreezeFrame | LiveVideo.

Section Handlers.

Variable colord_toName : Resolver.
Variable chroma_name : Resolver.

(** The first [if] / [else if] of [captureColor]: the source to sample and
    its dimensions, if there is one. *)
Definition selectSource (isFrozen : bool) (app : App)
  : option (Source * Z * Z) :=
  match isFrozen, freezeFrameCanvasRef app, videoRef app with
  | true, Some canvas, _ =>
      Some (FreezeFrame, Canvas.width canvas, Canvas.height canvas)
  | false, _, Some video =>
      if 2 <=? Video.readyState video
      then Some (LiveVideo, Video.videoWidth video, Video.videoHeight video)
      else None
  | _, _, _ => None
  end.

(** [captureColor].  [isFrozen] and [crosshairPosition] are the values the
    callback closed over; [readWindow src sx sy] is what
    [drawImage(src, sx, sy, 5, 5, 0, 0, 5, 5)] followed by
    [getImageData(0, 0, 5, 5).data] gives. *)
Definition captureColor (isFrozen : bool)
    (crosshairPosition : CrosshairPosition)
    (readWindow : Source → Z → Z → list Z) (app : App) : M App :=
  match selectSource isFrozen app, samplingCanvasRef app with
  | Some (src, sourceWidth, sourceHeight), Some samplingCanvas =>
      if (sourceWidth =? 0) || (sourceHeight =? 0) then mret app
      else if negb (Canvas.context2d samplingCanvas) then mret app
      else
        let '(centerX, centerY) :=
          sampleCenter isFrozen crosshairPosition sourceWidth sourceHeight in
        let sx := windowCorner centerX sourceWidth in
        let sy := windowCorner centerY sourceHeight in
        let app :=
          setSamplingCanvas
            (Some (Canvas.mk sampleSize sampleSize true)) app in
        let pixelData := readWindow src sx sy in
        match sampleAverage pixelData with
        | (Some r, Some g, Some b) =>
            let hex := rgbToHex r g b in
            displayName ← nameColor colord_toName chroma_name hex;
            mret (setColorData
                    (Some (mkColor hex (rgbString r g b) displayName r g b))
                    app)
        | _ => mret app
        end
  | _, _ => mret app
  end.

(** [track.stop()] *)
Definition stopTrack (store : gmap nat TrackState) (track : nat)
  : gmap nat TrackState := <[track := Ended]> store.

Definition stopCamera (app : App) : App :=
  let app :=
    match streamRef app with
    | Some stream =>
        setStreamRef None
          (setTracks (foldl stopTrack (tracks app) (getTracks stream)) app)
    | None => app
    end in
  let app :=
    match videoRef app with
    | Some video =>
        setVideo (Some (Video.mk None (Video.paused video)
                          (Video.readyState video) (Video.videoWidth video)
                          (Video.videoHeight video))) app
    | None => app
    end in
  setIsFrozen false (setIsCameraOn false app).

(** [startCamera] up to the [await]. *)
Definition startCamera (app : App) : App :=
  if isCameraOn app then app else setIsStartingCamera true app.

(** [startCamera] after [getUserMedia] resolved with [stream]. *)
Definition cameraGranted (stream : MediaStream) (app : App) : App :=
  let app :=
    setTracks (foldl (λ store track, <[track := Live]> store)
                     (tracks app) (getTracks stream)) app in
  let app := setStreamRef (Some stream) app in
  match videoRef app with
  | Some video =>
      setVideo (Some (Video.mk (Some stream) (Video.paused video)
                        (Video.readyState video) (Video.videoWidth video)
                        (Video.videoHeight video))) app
  | None => app
  end.

(** The [catch] of [startCamera]. *)
Definition cameraDenied (app : App) : App := setIsStartingCamera false app.

(** The [onloadedmetadata] handler installed by [startCamera]. *)
Definition loadedMetadata (app : App) : App :=
  let app :=
    match videoRef app with
    | Some video =>
        setVideo (Some (Video.mk (Video.srcObject video) false
                          (Video.readyState video) (Video.videoWidth video)
                          (Video.videoHeight video))) app
    | None => app
    end in
  setIsStartingCamera false (setIsCameraOn true app).

Definition handleToggleCamera (app : App) : App :=
  if isCameraOn app then stopCamera app else startCamera app.

(** [handleToggleFreeze]; the sample it defers with [setTimeout] is a
    separate event of the machine below. *)
Definition handleToggleFreeze (app : App) : App :=
  match videoRef app, freezeFrameCanvasRef app with
  | Some video, Some canvas =>
      let nextIsFrozen := negb (isFrozen app) in
      if nextIsFrozen then
        let app :=
          setVideo (Some (Video.mk (Video.srcObject video) true
                            (Video.readyState video) (Video.videoWidth video)
                            (Video.videoHeight video))) app in
        let app :=
          setFreezeFrameCanvas
            (Some (Canvas.mk (Video.videoWidth video)
                     (Video.videoHeight video) (Canvas.context2d canvas)))
            app in
        let app := setCrosshairPosition (Point.mk (1 # 2) (1 # 2)) app in
        setIsFrozen nextIsFrozen app
      else
        let app :=
          setVideo (Some (Video.mk (Video.srcObject video) false
                            (Video.readyState video) (Video.videoWidth video)
                            (Video.videoHeight video))) app in
        setIsFrozen nextIsFrozen app
  | _, _ => app
  end.

(** [handleCanvasClick].  The quotients, and the differences of
    coordinates they divide, are kept exact in the state, and
    [sampleCenter] takes the double nearest to them when it reads the
    position; a rectangle of zero width or height, where JavaScript gives
    an infinity or [NaN], is outside what the model covers. *)
Definition handleCanvasClick (event : MouseEvent) (app : App) : App :=
  if negb (isFrozen app) then app
  else
    let rect := boundingClientRect event in
    let x := ((clientX event - DOMRect.left rect) / DOMRect.width rect)%Q in
    let y := ((clientY event - DOMRect.top rect) / DOMRect.height rect)%Q in
    setCrosshairPosition (Point.mk x y) app.

(** The state after the first render: the [useState] and [useRef]
    initial values, and the three elements as they are mounted. *)
Definition initialApp (video : option Video.t)
    (freezeFrameCanvas samplingCanvas : option Canvas.t) : App :=
  mkApp None false false (Point.mk (1 # 2) (1 # 2)) false None
        video freezeFrameCanvas samplingCanvas ∅.

(** *** The event loop *)

Inductive Event :=
| ToggleCamera
| CameraGranted (stream : MediaStream)
| CameraDenied
| LoadedMetadata
(** the browser decoded more of the stream: the video element's
    [readyState], [videoWidth] and [videoHeight] change *)
| VideoUpdate (readyState videoWidth videoHeight : Z)
| ToggleFreeze
| CanvasClick (event : MouseEvent)
(** the interval tick, or the effect on [crosshairPosition] *)
| Sample (readWindow : Source → Z → Z → list Z)
(** the [setTimeout] of [handleToggleFreeze], whose callback closed over
    the state of the render before the freeze *)
| DeferredSample (closedFrozen : bool) (closedPosition : CrosshairPosition)
    (readWindow : Source → Z → Z → list Z).

(** A callback that throws leaves the state as it was. *)
Definition commit (m : M App) (app : App) : App :=
  match run m with
  | (Value app', _) => app'
  | (Raised, _) => app
  end.

Definition step (app : App) (ev : Event) : App :=
  match ev with
  | ToggleCamera => handleToggleCamera app
  | CameraGranted stream => cameraGranted stream app
  | CameraDenied => cameraDenied app
  | LoadedMetadata => loadedMetadata app
  | VideoUpdate readyState videoWidth videoHeight =>
      match videoRef app with
      | Some video =>
          setVideo (Some (Video.mk (Video.srcObject video) (Video.paused video)
                            readyState videoWidth videoHeight)) app
      | None => app
      end
  | ToggleFreeze => handleToggleFreeze app
  | CanvasClick event => handleCanvasClick event app
  | Sample readWindow =>
      if isCameraOn app && negb (isFrozen app) || isFrozen app then
        commit (captureColor (isFrozen app) (crosshairPosition app)
                  readWindow app) app
      else app
  | DeferredSample closedFrozen closedPosition readWindow =>
      commit (captureColor closedFrozen closedPosition readWindow app) app
  end.

Definition runEvents (app : App) (evs : list Event) : App :=
  foldl step app evs.

End Handlers.

(** ** Colour naming in the first revision of [App.tsx]

    The earlier copy of [captureColor] asks chroma-js alone: [colorName]
    starts as the empty string and keeps it when the lookup throws. *)
Definition nameColor_rev1 (chroma_name : Resolver) (hex : string) : M string :=
  colorName ← try_catch (call CallChroma chroma_name hex)
                        (mret (Some EmptyString));
  mret (displayNameOf colorName hex).

(** [isNaN] on a number that is an integer or [NaN]. *)
Definition isNaN (v : option Z) : bool :=
  match v with
  | Some _ => false
  | None => true
  end.

(** ** The presentational components and the render of [App]

    A render is the part of the element tree that depends on the state:
    which elements are present, their labels and their texts.  Styling
    that does not depend on the state is left out. *)

Module View.

(** [Crosshair]: [left] and [top] in percent, and whether the accent
    colour is used. *)
Record crosshair := mkCrosshair {
  left : Q;
  top : Q;
  accent : bool;
}.

(** [ColorInfoPanel]: the swatch colour and its label, the heading and its
    label, and the two texts of the line under the heading. *)
Record panel := mkPanel {
  swatch : string;
  swatchLabel : string;
  heading : string;
  headingLabel : string;
  rgbText : string;
  hexText : string;
}.

(** [CameraControls]: the label of the camera button, and the label of the
    freeze button when there is one. *)
Record controls := mkControls {
  cameraLabel : string;
  freezeLabel : option string;
}.

(** What [App] returns. *)
Record app := mkApp {
  videoOpaque : bool;
  freezeCanvasOpaque : bool;
  freezeCanvasClickable : bool;
  crosshairView : option crosshair;
  panelView : panel;
  controlsView : option controls;
  spinner : bool;
  splash : bool;
}.

End View.

Definition Crosshair (position : CrosshairPosition) (isFrozen : bool)
  : View.crosshair :=
  View.mkCrosshair (Point.x position * 100)%Q (Point.y position * 100)%Q
                   isFrozen.

Definition defaultColor : AppColorData :=
  {| name := "Aim at a color"; hex := "#2d3748"; rgb := "rgb(45, 55, 72)";
     r := 45; g := 55; b := 72 |}.

Definition ColorInfoPanel (colorData : option AppColorData) : View.panel :=
  let displayData :=
    match colorData with
    | Some sample => sample
    | None => defaultColor
    end in
  View.mkPanel (hex displayData)
               ("Color swatch for " +:+ name displayData)
               (name displayData)
               ("Color name: " +:+ name displayData)
               (rgb displayData)
               (JS.toUpperCase (hex displayData)).

Definition CameraControls (isCameraOn isFrozen : bool) : View.controls :=
  View.mkControls
    (if isCameraOn then "Turn camera off" else "Turn camera on")
    (if isCameraOn
     then Some (if isFrozen then "Resume live view" else "Freeze frame")
     else None).

(** The [return] of [App]. *)
Definition render (app : App) : View.app :=
  View.mkApp
    (isCameraOn app)
    (isFrozen app)
    (isFrozen app)
    (if isCameraOn app
     then Some (Crosshair (crosshairPosition app) (isFrozen app))
     else None)
    (ColorInfoPanel (colorData app))
    (if isCameraOn app
     then Some (CameraControls (isCameraOn app) (isFrozen app))
     else None)
    (isStartingCamera app)
    (negb (isCameraOn app) && negb (isStartingCamera app)).

(** The events the render lets the user cause: the camera button is in the
    controls or in the splash, the freeze button is in the controls, and
    the freeze canvas takes pointer events only while it is opaque.  The
    events that come from the browser are always possible. *)
Definition offered (app : App) (ev : Event) : Prop :=
  match ev with
  | ToggleCamera =>
      is_Some (View.controlsView (render app)) ∨ View.splash (render app) = true
  | ToggleFreeze =>
      ∃ controls, View.controlsView (render app) = Some controls
                  ∧ is_Some (View.freezeLabel controls)
  | CanvasClick _ => View.freezeCanvasClickable (render app) = true
  | _ => True
  end.

Section OfferedRuns.

Variable colord_toName : Resolver.
Variable chroma_name : Resolver.

(** A run in which every event was offered by the render of the state it
    happened in. *)
Fixpoint offeredRun (app : App) (evs : list Event) : Prop :=
  match evs with
  | [] => True
  | ev :: evs' =>
      offered app ev ∧ offeredRun (step colord_toName chroma_name app ev) evs'
  end.

End OfferedRuns.

(** Two states that differ at most in [colorData] and in the sampling
    canvas. *)
Definition sameOutsideSample (app app' : App) : Prop :=
  isCameraOn app' = isCameraOn app
  ∧ isFrozen app' = isFrozen app
  ∧ crosshairPosition app' = crosshairPosition app
  ∧ isStartingCamera app' = isStartingCamera app
  ∧ streamRef app' = streamRef app
  ∧ videoRef app' = videoRef app
  ∧ freezeFrameCanvasRef app' = freezeFrameCanvasRef app
  ∧ tracks app' = tracks app.

(** A colour record whose texts are printed from its channels and whose
    name is not empty. *)
Definition coherentColor (c : AppColorData) : Prop :=
  hex c = rgbToHex (r c) (g c) (b c)
  ∧ rgb c = rgbString (r c) (g c) (b c)
  ∧ name c ≠ EmptyString.


(** ** Notions of the specification

    The definitions below follow the words of the specification, not the
    code; the properties compare the two. *)

(** [clamp(v, lo, hi)], with the meaning it has in CSS: the lower bound
    wins when the range is empty. *)
Definition clamp (v lo hi : Q) : Q :=
  if Qle_bool hi lo then lo
  else if Qle_bool v lo then lo
  else if Qle_bool hi v then hi
  else v.

(** The entries of channel [c] (0 red, 1 green, 2 blue, 3 alpha) of the
    pixels [k], ..., [k + n - 1] of an RGBA buffer. *)
Definition channelEntries (c : nat) (pixelData : list Z) (k n : nat) : list Z :=
  map (λ j, nth (4 * j + c) pixelData 0) (seq k n).

Definition channelSum (c : nat) (pixelData : list Z) : Z :=
  foldr Z.add 0 (channelEntries c pixelData 0 25).

(** The unweighted arithmetic mean of a channel over the 25 pixels. *)
Definition channelMean (c : nat) (pixelData : list Z) : Q :=
  (inject_Z (channelSum c pixelData) / 25)%Q.

(** [r] is the integer nearest to [x], and no other integer is as near. *)
Definition nearestInteger (x : Q) (r : Z) : Prop :=
  ∀ z : Z, z ≠ r → (Qabs (inject_Z r - x) < Qabs (inject_Z z - x))%Q.

Definition isByte (v : Z) : Prop := 0 ≤ v ≤ 255.

(** Two buffers with the same red, green and blue entries. *)
Definition sameRGB (pixelData pixelData' : list Z) : Prop :=
  ∀ k c, (k < 25)%nat → (c < 3)%nat →
    nth (4 * k + c) pixelData 0 = nth (4 * k + c) pixelData' 0.

(** Every one of the 25 pixels is exactly [(red, green, blue)]. *)
Definition uniformRGB (red green blue : Z) (pixelData : list Z) : Prop :=
  ∀ k, (k < 25)%nat →
    nth (4 * k) pixelData 0 = red ∧ nth (4 * k + 1) pixelData 0 = green
    ∧ nth (4 * k + 2) pixelData 0 = blue.

(** The name a lookup yields: a reply that is [undefined] or empty, and a
    lookup that throws, yield none. *)
Definition nameFound (reply : Reply) : option string :=
  match reply with
  | Returns (Some (String c s)) => Some (String c s)
  | _ => None
  end.

(** Capitalisation read character by character: a character is uppercased
    when it starts the string or follows a space, and kept otherwise. *)
Fixpoint capitalizeFrom (startOfWord : bool) (s : string) : string :=
  match s with
  | EmptyString => EmptyString
  | String c s' =>
      String (if startOfWord then JS.upperChar c else c)
             (capitalizeFrom (Ascii.eqb c " ") s')
  end.

(** The channel-range invariant of a colour sample, with the length of
    its hex code. *)
Definition validSample (c : AppColorData) : Prop :=
  isByte (r c) ∧ isByte (g c) ∧ isByte (b c) ∧ String.length (hex c) = 7%nat.

(** The guards of [captureColor] all pass: there is a source, its
    dimensions are not zero, and the sampling canvas has a context. *)
Definition canSample (isFrozen : bool) (app : App) : bool :=
  match selectSource isFrozen app, samplingCanvasRef app with
  | Some (_, sourceWidth, sourceHeight), Some samplingCanvas =>
      negb ((sourceWidth =? 0) || (sourceHeight =? 0))
      && Canvas.context2d samplingCanvas
  | _, _ => false
  end.

(** The tracks of the stream the application holds. *)
Definition activeTracks (app : App) : list nat :=
  match streamRef app with
  | Some stream => getTracks stream
  | None => []
  end.

Definition inUnitSquare (p : CrosshairPosition) : Prop :=
  (0 <= Point.x p)%Q ∧ (Point.x p <= 1)%Q
  ∧ (0 <= Point.y p)%Q ∧ (Point.y p <= 1)%Q.

(** A click delivered to the canvas: the pointer is inside the canvas'
    bounding rectangle, which is not empty. *)
Definition delivered (event : MouseEvent) : Prop :=
  let rect := boundingClientRect event in
  (0 < DOMRect.width rect)%Q ∧ (0 < DOMRect.height rect)%Q
  ∧ (DOMRect.left rect <= clientX event)%Q
  ∧ (clientX event <= DOMRect.left rect + DOMRect.width rect)%Q
  ∧ (DOMRect.top rect <= clientY event)%Q
  ∧ (clientY event <= DOMRect.top rect + DOMRect.height rect)%Q.

Definition deliveredEvent (ev : Event) : Prop :=
  match ev with
  | CanvasClick event => delivered event
  | _ => True
  end.

(** * Properties *)

(** ** Worked values *)

Example rgbToHex_black : rgbToHex 0 0 0 = "#000000".
Proof. reflexivity. Qed.

Example rgbToHex_ff8001 : rgbToHex 255 128 1 = "#ff8001".
Proof. reflexivity. Qed.

Example componentToHex_5 : componentToHex 5 = "05".
Proof. reflexivity. Qed.

Example rgbString_ex : rgbString 255 128 1 = "rgb(255, 128, 1)".
Proof. reflexivity. Qed.

Example split_ex : JS.split_space "a  b" = ["a"; EmptyString; "b"].
Proof. reflexivity. Qed.

Example round_ex : JS.Math_round (5 # 2) = 3 /\ JS.Math_round (-5 # 2) = -2.
Proof. split; reflexivity. Qed.

(** *** Bounded checking over the byte range *)

Lemma forallb_below (P : Z → bool) (n : nat) :
  forallb P (map Z.of_nat (seq 0 n)) = true →
  ∀ c, 0 ≤ c < Z.of_nat n → P c = true.
Proof.
  intros Hall c Hc.
  rewrite forallb_forall in Hall. apply Hall.
  apply in_map_iff. exists (Z.to_nat c). split; [lia|].
  apply in_seq. lia.
Qed.

Lemma byte_hex_table : forallb byte_hex_ok (map Z.of_nat (seq 0 256)) = true.
Proof. vm_compute. reflexivity. Qed.

Lemma componentToHex_byte (c : Z) :
  0 ≤ c ≤ 255 → componentToHex c = hex2 c.
Proof.
  intros Hc.
  pose proof (forallb_below byte_hex_ok 256 byte_hex_table c ltac:(lia)) as H.
  apply andb_true_iff in H as [H _]. by apply String.eqb_eq in H.
Qed.

Lemma parseInt16_hex2 (c : Z) :
  0 ≤ c ≤ 255 → JS.parseInt16 (hex2 c) = Some c.
Proof.
  intros Hc.
  pose proof (forallb_below byte_hex_ok 256 byte_hex_table c ltac:(lia)) as H.
  apply andb_true_iff in H as [_ H].
  destruct (JS.parseInt16 (hex2 c)) as [c'|]; [|done].
  apply Z.eqb_eq in H. by subst.
Qed.

Lemma rgbToHex_bytes (r g b : Z) :
  0 ≤ r ≤ 255 → 0 ≤ g ≤ 255 → 0 ≤ b ≤ 255 →
  rgbToHex r g b = "#" +:+ hex2 r +:+ hex2 g +:+ hex2 b.
Proof.
  intros Hr Hg Hb. unfold rgbToHex.
  by rewrite !componentToHex_byte.
Qed.

Lemma rgbToHex_length (r g b : Z) :
  0 ≤ r ≤ 255 → 0 ≤ g ≤ 255 → 0 ≤ b ≤ 255 →
  String.length (rgbToHex r g b) = 7%nat.
Proof. intros Hr Hg Hb. by rewrite rgbToHex_bytes. Qed.

Lemma hexToRgb_rgbToHex (r g b : Z) :
  0 ≤ r ≤ 255 → 0 ≤ g ≤ 255 → 0 ≤ b ≤ 255 →
  hexToRgb (rgbToHex r g b) = Some (r, g, b).
Proof.
  intros Hr Hg Hb. rewrite rgbToHex_bytes by done.
  pose proof (parseInt16_hex2 r Hr) as Er.
  pose proof (parseInt16_hex2 g Hg) as Eg.
  pose proof (parseInt16_hex2 b Hb) as Eb.
  unfold hex2 in *. cbn [hexToRgb String.append String.length Nat.eqb
    String.substring]. 
  change (String.substring 0 2 ?s) with s.
  simpl. rewrite Er. simpl. rewrite Eg. simpl. rewrite Eb. done.
Qed.

Lemma parseInt16_toString16 (c : Z) : JS.parseInt16 (JS.toString16 c) = Some c.
Proof.
  unfold JS.parseInt16, JS.toString16.
  rewrite HexadecimalString.NilZero.isi.
  - simpl. by rewrite HexadecimalZ.of_to.
  - destruct c as [|p|p]; simpl; try discriminate.
    intros [= H]. by apply HexadecimalPos.Unsigned.to_uint_nonnil in H.
  - destruct c as [|p|p]; simpl; try discriminate.
    intros [= H]. by apply HexadecimalPos.Unsigned.to_uint_nonnil in H.
Qed.

Example capitalize_light_sky_blue :
  capitalizeWords "light sky blue" = "Light Sky Blue".
Proof. reflexivity. Qed.

Example capitalize_spaces : capitalizeWords " a  b " = " A  B ".
Proof. reflexivity. Qed.

Example sampleAverage_uniform :
  sampleAverage (concat (replicate 25 [100; 150; 200; 255]))
  = (Some 100, Some 150, Some 200).
Proof. vm_compute. reflexivity. Qed.

Example sampleAverage_ragged :
  sampleAverage [1; 2; 3; 4; 5] = (Some 0, None, None).
Proof. vm_compute. reflexivity. Qed.

Example windowCorner_ex :
  windowCorner 0 10 = 0 ∧ windowCorner 10 10 = 5 ∧ windowCorner (9 # 2) 10 = 3
  ∧ windowCorner 100 3 = 0.
Proof. vm_compute. done. Qed.

(** ** Rounding, minimum and maximum *)

Lemma Math_round_spec (x : Q) (z : Z) :
  JS.Math_round x = z ↔ (inject_Z z - (1#2) <= x)%Q ∧ (x < inject_Z z + (1#2))%Q.
Proof.
  unfold JS.Math_round. split.
  - intros <-. split.
    + pose proof (Qfloor_le (x + (1#2))). lra.
    + pose proof (Qlt_floor (x + (1#2))). rewrite inject_Z_plus in H. change (inject_Z 1) with 1%Q in H. lra.
  - intros [H1 H2].
    assert (z ≤ Qfloor (x + (1#2))).
    { rewrite <- (Qfloor_Z z). apply Qfloor_resp_le. lra. }
    assert (Qfloor (x + (1#2)) < z + 1).
    { rewrite Zlt_Qlt. eapply Qle_lt_trans; [apply Qfloor_le|]. rewrite inject_Z_plus. change (inject_Z 1) with 1%Q. lra. }
    lia.
Qed.

Lemma Math_round_mono (x y : Q) : (x <= y)%Q → JS.Math_round x ≤ JS.Math_round y.
Proof. intros H. apply Qfloor_resp_le. lra. Qed.

Lemma Math_round_Z (z : Z) : JS.Math_round (inject_Z z) = z.
Proof. apply Math_round_spec. split; lra. Qed.

Lemma Math_min_cases (x y : Q) :
  ((x <= y)%Q ∧ JS.Math_min x y = x) ∨ ((y < x)%Q ∧ JS.Math_min x y = y).
Proof.
  unfold JS.Math_min. destruct (Qle_bool x y) eqn:E.
  - left. split; [by apply Qle_bool_iff|done].
  - right. split; [|done]. apply Qnot_le_lt. intros H%Qle_bool_iff. congruence.
Qed.

Lemma Math_max_cases (x y : Q) :
  ((x <= y)%Q ∧ JS.Math_max x y = y) ∨ ((y < x)%Q ∧ JS.Math_max x y = x).
Proof.
  unfold JS.Math_max. destruct (Qle_bool x y) eqn:E.
  - left. split; [by apply Qle_bool_iff|done].
  - right. split; [|done]. apply Qnot_le_lt. intros H%Qle_bool_iff. congruence.
Qed.

Ltac minmax_cases :=
  repeat match goal with
  | |- context [JS.Math_min ?a ?b] =>
      let H := fresh "Hmin" in
      let E := fresh "Emin" in
      destruct (Math_min_cases a b) as [[H E]|[H E]]; rewrite E in *; clear E
  | |- context [JS.Math_max ?a ?b] =>
      let H := fresh "Hmax" in
      let E := fresh "Emax" in
      destruct (Math_max_cases a b) as [[H E]|[H E]]; rewrite E in *; clear E
  | _ : context [JS.Math_min ?a ?b] |- _ =>
      let H := fresh "Hmin" in
      let E := fresh "Emin" in
      destruct (Math_min_cases a b) as [[H E]|[H E]]; rewrite E in *; clear E
  | _ : context [JS.Math_max ?a ?b] |- _ =>
      let H := fresh "Hmax" in
      let E := fresh "Emax" in
      destruct (Math_max_cases a b) as [[H E]|[H E]]; rewrite E in *; clear E
  end.

Lemma halfSampleSize_eq : halfSampleSize = 2.
Proof. reflexivity. Qed.

Lemma clamped_eq (v hi : Q) :
  (JS.Math_max 0 (JS.Math_min v hi) == clamp v 0 hi)%Q.
Proof.
  unfold clamp.
  destruct (Qle_bool hi 0) eqn:E1; [apply Qle_bool_iff in E1|];
  [|destruct (Qle_bool v 0) eqn:E2; [apply Qle_bool_iff in E2|];
    [|destruct (Qle_bool hi v) eqn:E3; [apply Qle_bool_iff in E3|]]];
  minmax_cases;
  repeat match goal with
  | H : Qle_bool _ _ = false |- _ =>
      apply not_true_iff_false in H; rewrite Qle_bool_iff in H
  end; lra.
Qed.

Lemma windowCorner_bounds (center : Q) (dim : Z) :
  5 ≤ dim → 0 ≤ windowCorner center dim ≤ dim - 5.
Proof.
  intros Hd. unfold windowCorner.
  set (v := JS.Math_max _ _).
  assert (0 <= v ∧ v <= inject_Z (dim - 5))%Q as [H0 H1].
  { subst v. unfold sampleSize. rewrite halfSampleSize_eq.
    assert (inject_Z 0 <= inject_Z (dim - 5))%Q by (rewrite <- Zle_Qle; lia).
    unfold Z.sub in *. rewrite inject_Z_plus, inject_Z_opp in *.
    change (inject_Z 0) with 0%Q in *. change (inject_Z 2) with 2%Q in *.
    change (inject_Z 5) with 5%Q in *.
    minmax_cases; split; lra. }
  split.
  - rewrite <- (Math_round_Z 0). by apply Math_round_mono.
  - rewrite <- (Math_round_Z (dim - 5)). by apply Math_round_mono.
Qed.

Lemma windowCorner_small (center : Q) (dim : Z) :
  dim < 5 → windowCorner center dim = 0.
Proof.
  intros Hd. unfold windowCorner.
  set (v := JS.Math_max _ _).
  assert (v == 0)%Q as Hv;
    [|clearbody v; unfold JS.Math_round; rewrite Hv; reflexivity].
  subst v. unfold sampleSize. rewrite halfSampleSize_eq.
  assert (inject_Z dim < inject_Z 5)%Q by (rewrite <- Zlt_Qlt; lia).
  change (inject_Z 2) with 2%Q in *. change (inject_Z 5) with 5%Q in *.
  minmax_cases; lra.
Qed.

Lemma lookup_nth (l : list Z) (i : nat) :
  (i < length l)%nat → l !! i = Some (nth i l 0).
Proof.
  intros H. destruct (l !! i) eqn:E.
  - f_equal. symmetry. by apply nth_lookup_Some.
  - apply lookup_ge_None in E. lia.
Qed.

Lemma sumLoop_closed (pixelData : list Z) (n : nat) :
  length pixelData = (4 * n)%nat →
  ∀ fuel k tR tG tB,
    (k ≤ n)%nat → (n - k ≤ fuel)%nat →
    sumLoop fuel (4 * k) pixelData (Some tR, Some tG, Some tB)
    = (Some (tR + foldr Z.add 0 (channelEntries 0 pixelData k (n - k))),
       Some (tG + foldr Z.add 0 (channelEntries 1 pixelData k (n - k))),
       Some (tB + foldr Z.add 0 (channelEntries 2 pixelData k (n - k)))).
Proof.
  intros Hlen. induction fuel as [|fuel IH]; intros k tR tG tB Hk Hfuel.
  - replace (n - k)%nat with 0%nat by lia. simpl.
    by rewrite !Z.add_0_r.
  - cbn [sumLoop]. destruct (Nat.ltb_spec (4 * k) (length pixelData)) as [Hlt|Hge].
    + rewrite !lookup_nth by lia. cbn [addEntry].
      replace (4 * k + 4)%nat with (4 * S k)%nat by lia.
      rewrite IH by lia.
      replace (n - k)%nat with (S (n - S k)) by lia.
      unfold channelEntries. cbn [seq map foldr].
      rewrite !Nat.add_0_r.
      by rewrite !Z.add_assoc.
    + replace (n - k)%nat with 0%nat by lia. simpl.
      by rewrite !Z.add_0_r.
Qed.

Lemma sumLoop_fuel (pixelData : list Z) :
  ∀ fuel extra i totals,
    (length pixelData ≤ i + 4 * fuel)%nat →
    sumLoop (fuel + extra) i pixelData totals = sumLoop fuel i pixelData totals.
Proof.
  induction fuel as [|fuel IH]; intros extra i totals Hlen.
  - destruct extra; [done|]. cbn [Nat.add sumLoop].
    destruct (Nat.ltb_spec i (length pixelData)); [lia|done].
  - cbn [Nat.add sumLoop].
    destruct (Nat.ltb_spec i (length pixelData)); [|done].
    destruct totals as [[tR tG] tB]. apply IH. lia.
Qed.

(** The loop of [sampleAverage] stops on its own condition: more fuel than
    [length pixelData] changes nothing. *)
Lemma sumLoop_enough_fuel (pixelData : list Z) (extra : nat)
    (totals : option Z * option Z * option Z) :
  sumLoop (length pixelData + extra) 0 pixelData totals
  = sumLoop (length pixelData) 0 pixelData totals.
Proof. apply sumLoop_fuel. lia. Qed.

Lemma sampleAverage_closed (pixelData : list Z) :
  length pixelData = 100%nat →
  sampleAverage pixelData
  = (Some (JS.Math_round (channelMean 0 pixelData)),
     Some (JS.Math_round (channelMean 1 pixelData)),
     Some (JS.Math_round (channelMean 2 pixelData))).
Proof.
  intros Hlen. unfold sampleAverage.
  pose proof (sumLoop_closed pixelData 25 Hlen (length pixelData) 0 0 0 0
                ltac:(lia) ltac:(lia)) as H.
  change (4 * 0)%nat with 0%nat in H. rewrite H.
  change (25 - 0)%nat with 25%nat. rewrite !Z.add_0_l. reflexivity.
Qed.

Lemma mean25_not_half (t z : Z) : ¬ (inject_Z t / 25 == inject_Z z + (1 # 2))%Q.
Proof.
  intros H.
  assert (inject_Z (2 * t) == inject_Z (25 * (2 * z + 1)))%Q as H'.
  { rewrite !inject_Z_mult, inject_Z_plus, inject_Z_mult.
    change (inject_Z 2) with 2%Q. change (inject_Z 25) with 25%Q.
    change (inject_Z 1) with 1%Q.
    assert (inject_Z t == 25 * (inject_Z z + (1#2)))%Q as ->; [|lra].
    rewrite <- H. field. }
  rewrite inject_Z_injective in H'. lia.
Qed.

Lemma nearestInteger_intro (x : Q) (r : Z) :
  (inject_Z r - (1 # 2) < x)%Q → (x < inject_Z r + (1 # 2))%Q →
  nearestInteger x r.
Proof.
  intros H1 H2 z Hz.
  apply Qlt_le_trans with (1 # 2)%Q.
  - apply Qabs_Qlt_condition. split; lra.
  - destruct (Z.lt_total z r) as [Hlt|[?|Hgt]]; [|done|].
    + assert (inject_Z z <= inject_Z (r - 1))%Q as Hq by (rewrite <- Zle_Qle; lia).
      unfold Z.sub in Hq. rewrite inject_Z_plus, inject_Z_opp in Hq.
      change (inject_Z 1) with 1%Q in Hq.
      rewrite <- Qabs_opp. eapply Qle_trans; [|apply Qle_Qabs]. lra.
    + assert (inject_Z (r + 1) <= inject_Z z)%Q as Hq by (rewrite <- Zle_Qle; lia).
      rewrite inject_Z_plus in Hq. change (inject_Z 1) with 1%Q in Hq.
      eapply Qle_trans; [|apply Qle_Qabs]. lra.
Qed.

Lemma Math_round_mean_nearest (t : Z) :
  nearestInteger (inject_Z t / 25) (JS.Math_round (inject_Z t / 25)).
Proof.
  pose proof (proj1 (Math_round_spec (inject_Z t / 25) _) eq_refl) as [H1 H2].
  set (r := JS.Math_round _) in *. clearbody r.
  apply nearestInteger_intro; [|done].
  apply Qle_lteq in H1 as [H1|H1]; [done|].
  exfalso. apply (mean25_not_half t (r - 1)).
  unfold Z.sub. rewrite inject_Z_plus, inject_Z_opp.
  change (inject_Z 1) with 1%Q. lra.
Qed.

Lemma sum_bytes_bound (l : list Z) :
  Forall isByte l → 0 ≤ foldr Z.add 0 l ≤ 255 * Z.of_nat (length l).
Proof.
  induction 1 as [|v l Hv _ IH]; simpl; [lia|]. unfold isByte in Hv. lia.
Qed.

Lemma channelSum_bound (c : nat) (pixelData : list Z) :
  Forall isByte pixelData → 0 ≤ channelSum c pixelData ≤ 6375.
Proof.
  intros Hb. unfold channelSum.
  pose proof (sum_bytes_bound (channelEntries c pixelData 0 25)) as H.
  unfold channelEntries in *. rewrite length_map, length_seq in H.
  assert (255 * Z.of_nat 25 = 6375) as <- by done.
  apply H. apply Forall_map, Forall_forall. intros j _. cbv beta.
  destruct (nth_in_or_default (4 * j + c) pixelData 0) as [Hin| ->].
  - rewrite Forall_forall in Hb. by apply Hb, list_elem_of_In.
  - unfold isByte. lia.
Qed.

Lemma Math_round_mean_byte (t : Z) :
  0 ≤ t ≤ 6375 → 0 ≤ JS.Math_round (inject_Z t / 25) ≤ 255.
Proof.
  intros [H0 H1]. rewrite Zle_Qle in H0, H1.
  change (inject_Z 0) with 0%Q in H0. change (inject_Z 6375) with 6375%Q in H1.
  split.
  - rewrite <- (Math_round_Z 0). apply Math_round_mono.
    change (inject_Z 0) with 0%Q. apply Qle_shift_div_l; lra.
  - rewrite <- (Math_round_Z 255). apply Math_round_mono.
    change (inject_Z 255) with 255%Q. apply Qle_shift_div_r; lra.
Qed.

Lemma nameColor_run (colord_toName chroma_name : Resolver) (hex : string) :
  run (nameColor colord_toName chroma_name hex) =
  match nameFound (colord_toName hex) with
  | Some n => (Value (capitalizeWords n), [CallColord hex])
  | None =>
      match nameFound (chroma_name hex) with
      | Some n => (Value (capitalizeWords n), [CallColord hex; CallChroma hex])
      | None => (Value (JS.toUpperCase hex), [CallColord hex; CallChroma hex])
      end
  end.
Proof.
  unfold run, nameColor, resolveColorName, mbind, M_bind, bind, try_catch,
    call, mret, M_ret, ret.
  destruct (colord_toName hex) as [[[|c s]|]|];
    destruct (chroma_name hex) as [[[|c' s']|]|]; reflexivity.
Qed.

Lemma nameColor_at (colord_toName chroma_name : Resolver) (hex : string)
    (log : list Call) :
  nameColor colord_toName chroma_name hex log
  = (fst (run (nameColor colord_toName chroma_name hex)),
     log ++ snd (run (nameColor colord_toName chroma_name hex))).
Proof.
  unfold run, nameColor, resolveColorName, mbind, M_bind, bind, try_catch,
    call, mret, M_ret, ret.
  destruct (colord_toName hex) as [[[|c s]|]|];
    destruct (chroma_name hex) as [[[|c' s']|]|]; simpl;
    by rewrite <- ?app_assoc.
Qed.

Lemma nameColor_value (colord_toName chroma_name : Resolver) (hex : string) :
  ∃ displayName,
    fst (run (nameColor colord_toName chroma_name hex)) = Value displayName.
Proof.
  rewrite nameColor_run.
  destruct (nameFound (colord_toName hex)); [by eexists|].
  destruct (nameFound (chroma_name hex)); by eexists.
Qed.

(** A run of [captureColor] that a guard stops changes nothing and calls
    no library. *)
Lemma captureColor_guarded (colord_toName chroma_name : Resolver)
    (frozen : bool) (pos : CrosshairPosition)
    (readWindow : Source → Z → Z → list Z) (app : App) (log : list Call) :
  canSample frozen app = false →
  captureColor colord_toName chroma_name frozen pos readWindow app log
  = (Value app, log).
Proof.
  unfold canSample, captureColor.
  destruct (selectSource frozen app) as [[[src w] h]|]; [|done].
  destruct (samplingCanvasRef app) as [samplingCanvas|]; [|done].
  destruct ((w =? 0) || (h =? 0)); [done|].
  by destruct (Canvas.context2d samplingCanvas).
Qed.

(** A run that passes the guards resizes the sampling canvas, reads the
    window whose corner the clamp gives, and stores the sample unless a
    channel is [NaN]. *)
Lemma captureColor_sampling (colord_toName chroma_name : Resolver)
    (frozen : bool) (pos : CrosshairPosition)
    (readWindow : Source → Z → Z → list Z) (app : App) (log : list Call) :
  canSample frozen app = true →
  ∃ src w h app' calls,
    selectSource frozen app = Some (src, w, h) ∧ w ≠ 0 ∧ h ≠ 0
    ∧ captureColor colord_toName chroma_name frozen pos readWindow app log
      = (Value app', log ++ calls)
    ∧ let center := sampleCenter frozen pos w h in
      let pixelData :=
        readWindow src (windowCorner center.1 w) (windowCorner center.2 h) in
      let app1 :=
        setSamplingCanvas (Some (Canvas.mk sampleSize sampleSize true)) app in
      match sampleAverage pixelData with
      | (Some r, Some g, Some b) =>
          ∃ displayName,
            fst (run (nameColor colord_toName chroma_name (rgbToHex r g b)))
            = Value displayName
            ∧ app' = setColorData
                       (Some (mkColor (rgbToHex r g b) (rgbString r g b)
                                displayName r g b)) app1
      | _ => app' = app1
      end.
Proof.
  unfold canSample, captureColor.
  destruct (selectSource frozen app) as [[[src w] h]|]; [|done].
  destruct (samplingCanvasRef app) as [samplingCanvas|]; [|done].
  destruct (Z.eqb_spec w 0) as [|Hw]; [done|].
  destruct (Z.eqb_spec h 0) as [|Hh]; [done|].
  destruct (Canvas.context2d samplingCanvas); [intros _|done].
  exists src, w, h.
  cbn [orb negb]. unfold sampleCenter. cbv beta iota zeta. cbn [fst snd].
  set (app1 := setSamplingCanvas _ app).
  match goal with
  | |- context [sampleAverage ?p] =>
      destruct (sampleAverage p) as [[[r|] [g|]] [b|]] eqn:Havg
  end;
    try (exists app1, []; by rewrite app_nil_r).
  unfold mbind, M_bind, bind. rewrite nameColor_at.
  destruct (nameColor_value colord_toName chroma_name (rgbToHex r g b))
    as [displayName Hname].
  rewrite Hname. eexists _, _. split_and!; try done.
  by exists displayName.
Qed.

Lemma captureColor_returns (colord_toName chroma_name : Resolver)
    (frozen : bool) (pos : CrosshairPosition)
    (readWindow : Source → Z → Z → list Z) (app : App) (log : list Call) :
  ∃ app' log',
    captureColor colord_toName chroma_name frozen pos readWindow app log
    = (Value app', log').
Proof.
  destruct (canSample frozen app) eqn:Hcan.
  - destruct (captureColor_sampling colord_toName chroma_name frozen pos
                readWindow app log Hcan)
      as (src & w & h & app' & calls & _ & _ & _ & Hrun & _).
    by eexists _, _.
  - rewrite captureColor_guarded by done. by eexists _, _.
Qed.

Lemma join_space_cons (c : ascii) (w : string) (ws : list string) :
  JS.join_space (String c w :: ws) = String c (JS.join_space (w :: ws)).
Proof. by destruct ws. Qed.

Lemma capitalizeWords_from (s : string) :
  ∀ startOfWord : bool,
    match JS.split_space s with
    | [] => False
    | w :: ws =>
        JS.join_space ((if startOfWord then capitalizeWord w else w)
                         :: map capitalizeWord ws)
        = capitalizeFrom startOfWord s
    end.
Proof.
  induction s as [|c s IH]; intros startOfWord.
  - by destruct startOfWord.
  - cbn [JS.split_space capitalizeFrom].
    destruct (Ascii.eqb_spec c " ") as [->|Hc].
    + specialize (IH true). destruct (JS.split_space s) as [|w ws]; [done|].
      cbn [map]. rewrite <- IH. by destruct startOfWord.
    + specialize (IH false). destruct (JS.split_space s) as [|w ws]; [done|].
      rewrite <- IH. destruct startOfWord.
      * unfold capitalizeWord at 1. cbn [JS.charAt0 JS.slice1 JS.toUpperCase].
        change (String ?a EmptyString +:+ ?v) with (String a v).
        by rewrite join_space_cons.
      * by rewrite join_space_cons.
Qed.

Lemma capitalizeWords_spec (s : string) :
  capitalizeWords s = capitalizeFrom true s.
Proof.
  unfold capitalizeWords. pose proof (capitalizeWords_from s true) as H.
  by destruct (JS.split_space s).
Qed.

(** ** The camera and its tracks *)

Lemma foldl_stopTrack_keeps (ts : list nat) (t : nat) :
  ∀ store : gmap nat TrackState,
    store !! t = Some Ended → foldl stopTrack store ts !! t = Some Ended.
Proof.
  induction ts as [|t' ts IH]; intros store Hstore; [done|].
  cbn [foldl]. apply IH. unfold stopTrack.
  destruct (decide (t' = t)) as [->|Hne].
  - by rewrite lookup_insert_eq.
  - by rewrite lookup_insert_ne.
Qed.

Lemma foldl_stopTrack_ended (ts : list nat) (t : nat) :
  ∀ store : gmap nat TrackState,
    t ∈ ts → foldl stopTrack store ts !! t = Some Ended.
Proof.
  induction ts as [|t' ts IH]; intros store Hin.
  - by apply elem_of_nil in Hin.
  - cbn [foldl]. apply elem_of_cons in Hin as [->|Hin].
    + apply foldl_stopTrack_keeps. unfold stopTrack. by rewrite lookup_insert_eq.
    + by apply IH.
Qed.

Lemma foldl_stopTrack_other (ts : list nat) (t : nat) :
  ∀ store : gmap nat TrackState,
    t ∉ ts → foldl stopTrack store ts !! t = store !! t.
Proof.
  induction ts as [|t' ts IH]; intros store Hnin; [done|].
  cbn [foldl]. apply not_elem_of_cons in Hnin as [Hne Hnin].
  rewrite IH by done. unfold stopTrack. by rewrite lookup_insert_ne.
Qed.

(** ** The crosshair *)

Lemma commit_captureColor_crosshair (colord_toName chroma_name : Resolver)
    (frozen : bool) (pos : CrosshairPosition)
    (readWindow : Source → Z → Z → list Z) (app : App) :
  crosshairPosition
    (commit (captureColor colord_toName chroma_name frozen pos readWindow app)
            app)
  = crosshairPosition app.
Proof.
  unfold commit, run. destruct (canSample frozen app) eqn:Hcan.
  - destruct (captureColor_sampling colord_toName chroma_name frozen pos
                readWindow app [] Hcan)
      as (src & w & h & app' & calls & _ & _ & _ & -> & Hres).
    cbv zeta in Hres.
    destruct (sampleAverage _) as [[[r|] [g|]] [b|]];
      try (by subst app'). by destruct Hres as (name & _ & ->).
  - by rewrite captureColor_guarded.
Qed.

Lemma click_inUnitSquare (event : MouseEvent) (app : App) :
  delivered event → isFrozen app = true →
  inUnitSquare (crosshairPosition (handleCanvasClick event app)).
Proof.
  intros (Hw & Hh & Hx1 & Hx2 & Hy1 & Hy2) Hfrozen.
  unfold handleCanvasClick. rewrite Hfrozen. cbn.
  unfold inUnitSquare. cbn. split_and!.
  - apply Qle_shift_div_l; [done|]. lra.
  - apply Qle_shift_div_r; [done|]. lra.
  - apply Qle_shift_div_l; [done|]. lra.
  - apply Qle_shift_div_r; [done|]. lra.
Qed.

Lemma center_inUnitSquare : inUnitSquare (Point.mk (1 # 2) (1 # 2)).
Proof. unfold inUnitSquare. cbn. split_and!; lra. Qed.

Lemma step_inUnitSquare (colord_toName chroma_name : Resolver)
    (app : App) (ev : Event) :
  deliveredEvent ev → inUnitSquare (crosshairPosition app) →
  inUnitSquare (crosshairPosition (step colord_toName chroma_name app ev)).
Proof.
  intros Hev Hinv. destruct ev; cbn [step deliveredEvent] in *.
  - unfold handleToggleCamera, stopCamera, startCamera.
    repeat case_match; done.
  - unfold cameraGranted. by repeat case_match.
  - done.
  - unfold loadedMetadata. by repeat case_match.
  - by case_match.
  - unfold handleToggleFreeze.
    repeat case_match; try done; apply center_inUnitSquare.
  - destruct (isFrozen app) eqn:Hfrozen.
    + by apply click_inUnitSquare.
    + unfold handleCanvasClick. by rewrite Hfrozen.
  - case_match; [|done]. by rewrite commit_captureColor_crosshair.
  - by rewrite commit_captureColor_crosshair.
Qed.

Lemma runEvents_inUnitSquare (colord_toName chroma_name : Resolver)
    (evs : list Event) :
  ∀ app : App,
    Forall deliveredEvent evs → inUnitSquare (crosshairPosition app) →
    inUnitSquare
      (crosshairPosition (runEvents colord_toName chroma_name app evs)).
Proof.
  unfold runEvents. induction evs as [|ev evs IH]; intros app Hevs Hinv; [done|].
  apply Forall_cons in Hevs as [Hev Hevs]. cbn [foldl].
  apply IH; [done|]. by apply step_inUnitSquare.
Qed.

(** ** Double-precision rounding *)

Lemma round_Qeq (p q : Q) :
  (p == q)%Q → Binary64.round p = Binary64.round q.
Proof.
  intros H. unfold Binary64.round. by rewrite (Qred_complete p q H).
Qed.

Lemma roundHalfEven_int (q : Q) (n : Z) :
  (q == inject_Z n)%Q → Binary64.roundHalfEven q = n.
Proof.
  intros H. unfold Binary64.roundHalfEven.
  assert (Qfloor q = n) as -> by (rewrite H; apply Qfloor_Z).
  assert (q - inject_Z n < 1 # 2)%Q as Hlt by (rewrite H; lra).
  rewrite Qlt_alt in Hlt. by rewrite Hlt.
Qed.

Lemma pow2_neg (e : Z) :
  e < 0 →
  (Binary64.pow2 e == 1 / inject_Z (2 ^ (- e)))%Q ∧ 0 < 2 ^ (- e).
Proof.
  intros He. assert (0 < 2 ^ (- e)) as Hpos by (apply Z.pow_pos_nonneg; lia).
  split; [|exact Hpos]. unfold Binary64.pow2.
  destruct (Z.leb_spec 0 e); [lia|].
  unfold Qeq, Qdiv, Qmult, Qinv, inject_Z. simpl.
  destruct (2 ^ (- e)) as [|p|p] eqn:E; try lia. simpl. lia.
Qed.

Lemma pow2_pos (e : Z) : (0 < Binary64.pow2 e)%Q.
Proof.
  unfold Binary64.pow2. destruct (Z.leb_spec 0 e).
  - change 0%Q with (inject_Z 0). rewrite <- Zlt_Qlt.
    apply Z.pow_pos_nonneg; lia.
  - reflexivity.
Qed.

Lemma ilog2_below (a : Q) :
  (0 < a)%Q → (a < Binary64.pow2 52)%Q → Binary64.ilog2 a ≤ 51.
Proof.
  intros Hpos Hlt. unfold Binary64.ilog2.
  destruct (Qle_bool 1 a) eqn:E.
  - apply Qle_bool_iff in E.
    assert (1 ≤ Qfloor a) as H1.
    { rewrite <- (Qfloor_Z 1). by apply Qfloor_resp_le. }
    assert (Qfloor a < 2 ^ 52) as H2.
    { rewrite Zlt_Qlt. eapply Qle_lt_trans; [apply Qfloor_le|exact Hlt]. }
    apply Z.log2_lt_pow2 in H2; lia.
  - pose proof (Z.log2_up_nonneg (Qceiling (/ a))). lia.
Qed.

(** A number that lies on every grid of doubles it could be rounded to is
    a double: rounding leaves it as it is. *)
Lemma round_grid (x : Q) :
  (∀ e, -1074 ≤ e ≤ -1 →
        ∃ n, (Qabs x / Binary64.pow2 e == inject_Z n)%Q) →
  (Binary64.round x == x)%Q.
Proof.
  intros Hgrid. unfold Binary64.round.
  pose proof (Qred_correct x) as Hq.
  set (q := Qred x) in *. clearbody q.
  destruct (Qle_bool (Qabs q) 0) eqn:E0; [exact Hq|].
  destruct (Qle_bool (Binary64.pow2 52) (Qabs q)) eqn:E1; [exact Hq|].
  assert (0 < Qabs q)%Q as Hpos.
  { apply Qnot_le_lt. intros H%Qle_bool_iff. congruence. }
  assert (Qabs q < Binary64.pow2 52)%Q as Hlt.
  { apply Qnot_le_lt. intros H%Qle_bool_iff. congruence. }
  pose proof (ilog2_below _ Hpos Hlt) as Hlog.
  set (e := Z.max (Binary64.ilog2 (Qabs q) - 52) (-1074)).
  assert (-1074 ≤ e ≤ -1) as He by (subst e; lia).
  destruct (Hgrid e He) as [n Hn].
  rewrite <- Hq in Hn.
  rewrite (roundHalfEven_int _ n Hn), Qred_correct.
  pose proof (pow2_pos e) as Hp.
  assert (inject_Z n * Binary64.pow2 e == Qabs q)%Q as Hmag.
  { rewrite <- Hn. field. lra. }
  rewrite <- Hq.
  destruct (Qle_bool 0 q) eqn:Es.
  - apply Qle_bool_iff in Es.
    rewrite <- Qmult_assoc, Hmag, Qabs_pos by exact Es. lra.
  - assert (q < 0)%Q as Hneg
      by (apply Qnot_le_lt; intros H%Qle_bool_iff; congruence).
    rewrite <- Qmult_assoc, Hmag, Qabs_neg by lra. lra.
Qed.

(** The half of an integer is a double. *)
Lemma round_half_integer (k : Z) :
  (Binary64.round (inject_Z k / 2) == inject_Z k / 2)%Q.
Proof.
  apply round_grid. intros e He.
  destruct (pow2_neg e ltac:(lia)) as [Hpow Hpos].
  exists (Z.abs k * 2 ^ (- e - 1)).
  assert (2 ^ (- e) = 2 * 2 ^ (- e - 1)) as Hsplit.
  { rewrite <- Z.pow_succ_r by lia. f_equal. lia. }
  rewrite Hpow, Hsplit in *. rewrite !inject_Z_mult.
  assert (0 < inject_Z (2 ^ (- e - 1)))%Q as Hp.
  { change 0%Q with (inject_Z 0). rewrite <- Zlt_Qlt. lia. }
  assert (Qabs (inject_Z k / 2) == inject_Z (Z.abs k) / 2)%Q as ->.
  { unfold Qdiv. rewrite Qabs_Qmult.
    change (Qabs (inject_Z k)) with (inject_Z (Z.abs k)).
    by rewrite (Qabs_pos (/ 2)) by (unfold Qle; simpl; lia). }
  change (inject_Z 2) with 2%Q. field. lra.
Qed.

Lemma round_half_width (w : Z) :
  (Binary64.round (Binary64.round (1 # 2) * inject_Z w)
   == inject_Z w / 2)%Q.
Proof.
  change (Binary64.round (1 # 2)) with (1 # 2)%Q.
  rewrite (round_Qeq ((1 # 2) * inject_Z w) (inject_Z w / 2)) by field.
  apply round_half_integer.
Qed.

(** Powers of two and the binary logarithm. *)

Lemma pow2_Qpower (e : Z) : (Binary64.pow2 e == 2 ^ e)%Q.
Proof.
  destruct (Z.lt_ge_cases e 0) as [Hneg|Hpos].
  - destruct (pow2_neg e Hneg) as [H Hp]. rewrite H.
    assert (e = - (- e)) as He by lia.
    set (k := - e) in *. rewrite He, Qpower_opp.
    pose proof (Zpower_Qpower 2 k ltac:(lia)) as Hz.
    change (inject_Z 2) with 2%Q in Hz. rewrite Hz.
    unfold Qdiv. now rewrite Qmult_1_l.
  - unfold Binary64.pow2. destruct (Z.leb_spec 0 e); [|lia].
    exact (Zpower_Qpower 2 e ltac:(lia)).
Qed.

Lemma two_pow_Z (n : Z) : 0 <= n → (2 ^ n == inject_Z (2 ^ n))%Q.
Proof. intros H. symmetry. exact (Zpower_Qpower 2 n H). Qed.

Lemma two_pow_lt (x y : Z) : (2 ^ x < 2 ^ y)%Q ↔ x < y.
Proof.
  split.
  - intros H. destruct (Z.lt_ge_cases x y) as [|Hge]; [assumption|].
    exfalso. apply (Qlt_not_le _ _ H).
    apply Qpower_le_compat_l; [lia|lra].
  - intros H. apply Qpower_lt_compat_l; [lia|lra].
Qed.

Lemma two_pow_le (x y : Z) : x <= y → (2 ^ x <= 2 ^ y)%Q.
Proof. intros H. apply Qpower_le_compat_l; [lia|lra]. Qed.

Lemma two_pow_pos (x : Z) : (0 < 2 ^ x)%Q.
Proof. apply Qpower_0_lt. lra. Qed.

Lemma two_pow_succ (x : Z) : (2 ^ (x + 1) == 2 * 2 ^ x)%Q.
Proof. rewrite Qpower_plus by lra. change (2 ^ 1)%Q with 2%Q. ring. Qed.

(** [ilog2 a] is the exponent of the binade of [a]. *)
Lemma ilog2_spec (a : Q) :
  (0 < a)%Q → (2 ^ Binary64.ilog2 a <= a)%Q /\ (a < 2 ^ (Binary64.ilog2 a + 1))%Q.
Proof.
  intros Hpos. unfold Binary64.ilog2.
  destruct (Qle_bool 1 a) eqn:E.
  - apply Qle_bool_iff in E.
    assert (1 <= Qfloor a) as H1.
    { rewrite <- (Qfloor_Z 1). now apply Qfloor_resp_le. }
    destruct (Z.log2_spec (Qfloor a) ltac:(lia)) as [Hlo Hhi].
    pose proof (Z.log2_nonneg (Qfloor a)) as Hnn.
    set (l := Z.log2 (Qfloor a)) in *.
    rewrite !two_pow_Z by lia. split.
    + eapply Qle_trans; [|apply Qfloor_le]. now rewrite <- Zle_Qle.
    + eapply Qlt_le_trans; [apply Qlt_floor|].
      rewrite <- Zle_Qle. replace (Z.succ l) with (l + 1) in Hhi by lia. lia.
  - assert (a < 1)%Q as Hlt1
      by (apply Qnot_le_lt; intros H%Qle_bool_iff; congruence).
    assert (1 < / a)%Q as Hinv.
    { apply Qmult_lt_r with (z := a); [assumption|].
      rewrite Qmult_1_l, Qmult_comm, Qmult_inv_r by lra. assumption. }
    set (c := Qceiling (/ a)).
    assert (1 < c) as Hc.
    { rewrite Zlt_Qlt. eapply Qlt_le_trans; [exact Hinv|apply Qle_ceiling]. }
    destruct (Z.log2_up_spec c Hc) as [Hlo Hhi].
    pose proof (Z.log2_up_nonneg c) as Hnn.
    set (u := Z.log2_up c) in *.
    assert (/ a <= inject_Z (2 ^ u))%Q as Hup.
    { eapply Qle_trans; [apply Qle_ceiling|]. now rewrite <- Zle_Qle. }
    assert (inject_Z (2 ^ (u - 1)) < / a)%Q as Hdown.
    { assert (2 ^ (u - 1) <= c - 1) as Hz
        by (replace (Z.pred u) with (u - 1) in Hlo by lia; lia).
      rewrite Zle_Qle in Hz. eapply Qle_lt_trans; [exact Hz|].
      apply Qceiling_lt. }
    assert (1 <= u) as Hu1.
    { destruct (Z.lt_ge_cases u 1); [|assumption].
      assert (u = 0) as Hu0 by lia. rewrite Hu0 in Hhi. simpl in Hhi. lia. }
    rewrite <- two_pow_Z in Hup, Hdown by lia.
    pose proof (two_pow_pos u) as Hpu. pose proof (two_pow_pos (u - 1)) as Hpu1.
    split.
    + rewrite Qpower_opp.
      apply Qle_shift_inv_r; [assumption|].
      assert (a * / a <= a * 2 ^ u)%Q as H
        by (apply Qmult_le_l; assumption).
      now rewrite Qmult_inv_r in H by lra.
    + replace (- u + 1) with (- (u - 1)) by lia. rewrite Qpower_opp.
      apply Qlt_shift_inv_l; [assumption|].
      assert (a * 2 ^ (u - 1) < a * / a)%Q as H
        by (apply Qmult_lt_l; assumption).
      now rewrite Qmult_inv_r in H by lra.
Qed.

Lemma ilog2_unique (a : Q) (l : Z) :
  (2 ^ l <= a)%Q → (a < 2 ^ (l + 1))%Q → Binary64.ilog2 a = l.
Proof.
  intros Hlo Hhi.
  assert (0 < a)%Q as Hpos by (pose proof (two_pow_pos l); lra).
  destruct (ilog2_spec a Hpos) as [Hlo' Hhi'].
  assert (Binary64.ilog2 a < l + 1) by (apply two_pow_lt; lra).
  assert (l < Binary64.ilog2 a + 1) by (apply two_pow_lt; lra).
  lia.
Qed.

(** Rounding to the nearest integer stays between the integers that bound
    the number. *)
Lemma roundHalfEven_bounds (q : Q) (n n' : Z) :
  (inject_Z n <= q)%Q → (q <= inject_Z n')%Q →
  n <= Binary64.roundHalfEven q <= n'.
Proof.
  intros Hlo Hhi. unfold Binary64.roundHalfEven.
  assert (n <= Qfloor q) as Hf.
  { rewrite <- (Qfloor_Z n). now apply Qfloor_resp_le. }
  assert (Qfloor q <= n') as Hf'.
  { rewrite <- (Qfloor_Z n'). now apply Qfloor_resp_le. }
  assert ((0 < q - inject_Z (Qfloor q))%Q → Qfloor q + 1 <= n') as Hup.
  { intros Hfrac.
    assert (Qfloor q < n'); [|lia].
    rewrite Zlt_Qlt. lra. }
  destruct (Qcompare_spec (q - inject_Z (Qfloor q)) (1 # 2)) as [He|Hl|Hg].
  - destruct (Z.even (Qfloor q)); [lia|].
    split; [lia|]. apply Hup. rewrite He. reflexivity.
  - lia.
  - split; [lia|]. apply Hup. lra.
Qed.

(** A number that is a whole multiple of the last place of its own binade
    is left as it is. *)
Lemma round_fixed (x : Q) (n : Z) :
  (Qabs (Qred x)
   / Binary64.pow2 (Z.max (Binary64.ilog2 (Qabs (Qred x)) - 52) (-1074)) == inject_Z n)%Q →
  (Binary64.round x == x)%Q.
Proof.
  intros Hn. unfold Binary64.round.
  pose proof (Qred_correct x) as Hq.
  set (q := Qred x) in *. clearbody q.
  destruct (Qle_bool (Qabs q) 0) eqn:E0; [exact Hq|].
  destruct (Qle_bool (Binary64.pow2 52) (Qabs q)) eqn:E1; [exact Hq|].
  set (e := Z.max (Binary64.ilog2 (Qabs q) - 52) (-1074)) in *.
  rewrite (roundHalfEven_int _ n Hn), Qred_correct.
  pose proof (pow2_pos e) as Hp.
  assert (inject_Z n * Binary64.pow2 e == Qabs q)%Q as Hmag.
  { rewrite <- Hn. field. lra. }
  rewrite <- Hq.
  destruct (Qle_bool 0 q) eqn:Es.
  - apply Qle_bool_iff in Es. rewrite <- Qmult_assoc, Hmag, Qabs_pos by exact Es.
    lra.
  - assert (q < 0)%Q as Hneg
      by (apply Qnot_le_lt; intros H%Qle_bool_iff; congruence).
    rewrite <- Qmult_assoc, Hmag, Qabs_neg by lra. lra.
Qed.

Lemma round_zero (x : Q) : (x == 0)%Q → (Binary64.round x == x)%Q.
Proof.
  intros Hx. unfold Binary64.round.
  assert (Qle_bool (Qabs (Qred x)) 0 = true) as ->.
  { apply Qle_bool_iff. rewrite Qred_correct, Hx. apply Qle_refl. }
  apply Qred_correct.
Qed.

(** What rounding returns is a double: rounding it again changes nothing.
    A number that a field already stores as a double is therefore read
    back as itself. *)
Lemma round_idempotent (x : Q) :
  (Binary64.round (Binary64.round x) == Binary64.round x)%Q.
Proof.
  remember (Binary64.round x) as y0 eqn:Ey. unfold Binary64.round in Ey.
  set (q := Qred x) in *.
  assert (Qred q = q) as Hqq by apply (Qred_complete _ _ (Qred_correct x)).
  clearbody q. clear x.
  destruct (Qle_bool (Qabs q) 0) eqn:E0.
  { subst y0. apply Qle_bool_iff in E0. apply round_zero.
    apply Qabs_Qle_condition in E0. lra. }
  destruct (Qle_bool (Binary64.pow2 52) (Qabs q)) eqn:E1.
  { subst y0. unfold Binary64.round. rewrite Hqq, E0, E1. reflexivity. }
  assert (0 < Qabs q)%Q as Hpos.
  { apply Qnot_le_lt. intros H%Qle_bool_iff. congruence. }
  assert (Qabs q < Binary64.pow2 52)%Q as Hlt.
  { apply Qnot_le_lt. intros H%Qle_bool_iff. congruence. }
  destruct (ilog2_spec _ Hpos) as [Hlo Hhi].
  set (l := Binary64.ilog2 (Qabs q)) in *.
  set (e := Z.max (l - 52) (-1074)).
  set (t := (Qabs q / Binary64.pow2 e)%Q).
  set (m := Binary64.roundHalfEven t).
  pose proof (pow2_pos e) as Hpe.
  pose proof (pow2_Qpower e) as Hpow.
  (* bounds of the scaled magnitude *)
  assert (0 <= t)%Q as Ht0.
  { unfold t. apply Qle_shift_div_l; lra. }
  assert (t < 2 ^ 53)%Q as Ht53.
  { unfold t. apply Qlt_shift_div_r; [exact Hpe|].
    rewrite Hpow, <- Qpower_plus by lra.
    eapply Qlt_le_trans; [exact Hhi|]. apply two_pow_le. lia. }
  assert (e = -1074 \/ (2 ^ 52 <= t)%Q) as Hnorm.
  { destruct (Z.max_spec (l - 52) (-1074)) as [[_ He]|[_ He]]; fold e in He.
    - now left.
    - right. unfold t. apply Qle_shift_div_l; [exact Hpe|].
      rewrite Hpow, <- Qpower_plus by lra.
      replace (52 + e) with l by lia. exact Hlo. }
  assert (0 <= m <= 2 ^ 53) as Hm.
  { apply roundHalfEven_bounds; [exact Ht0|].
    rewrite <- two_pow_Z by lia. lra. }
  assert (e = -1074 \/ 2 ^ 52 <= m) as Hnorm'.
  { destruct Hnorm as [?|H52]; [now left|right].
    apply (roundHalfEven_bounds t (2 ^ 52) (2 ^ 53)).
    - rewrite <- two_pow_Z by lia. exact H52.
    - rewrite <- two_pow_Z by lia. lra. }
  (* the magnitude of the rounded number *)
  fold l e t m in Ey. rename y0 into y.
  assert (Qabs (Qred y) == inject_Z m * Binary64.pow2 e)%Q as Hy.
  { rewrite Ey, !Qred_correct, !Qabs_Qmult.
    rewrite (Qabs_pos (inject_Z m)) by (rewrite <- (Zle_Qle 0); lia).
    rewrite (Qabs_pos (Binary64.pow2 e)) by lra.
    destruct (Qle_bool 0 q); change (Qabs 1) with 1%Q;
      change (Qabs (-1)) with 1%Q; ring. }
  destruct (Z.eq_dec m 0) as [Hm0|Hm0].
  { apply round_zero. rewrite Ey, Qred_correct, Hm0. ring. }
  destruct (Z.eq_dec m (2 ^ 53)) as [Hm53|Hm53].
  { apply (round_fixed y (2 ^ 52)).
    assert (Qabs (Qred y) == 2 ^ (53 + e))%Q as Hy'.
    { rewrite Hy, Hm53, Hpow, Qpower_plus by lra.
      now rewrite <- two_pow_Z by lia. }
    rewrite (ilog2_unique _ (53 + e)).
    - replace (Z.max (53 + e - 52) (-1074)) with (e + 1) by lia.
      rewrite Hy', pow2_Qpower, <- two_pow_Z by lia.
      replace (53 + e) with (52 + (e + 1)) by lia.
      rewrite Qpower_plus by lra. field.
      pose proof (two_pow_pos (e + 1)). lra.
    - rewrite Hy'. apply Qle_refl.
    - rewrite Hy'. apply two_pow_lt. lia. }
  apply (round_fixed y m).
  destruct (Z.log2_spec m ltac:(lia)) as [Hl1 Hl2].
  pose proof (Z.log2_nonneg m) as Hl0.
  set (lm := Z.log2 m) in *.
  assert (lm <= 52) as Hlm.
  { assert (lm < 53); [|lia]. apply Z.log2_lt_pow2; lia. }
  rewrite (ilog2_unique _ (lm + e)).
  - replace (Z.max (lm + e - 52) (-1074)) with e.
    + rewrite Hy. field. lra.
    + destruct Hnorm' as [He|H52].
      * rewrite He. lia.
      * assert (52 <= lm) by (apply Z.log2_le_pow2; lia). unfold e. lia.
  - rewrite Hy, Hpow, Qpower_plus by lra.
    apply Qmult_le_compat_r; [|pose proof (two_pow_pos e); lra].
    rewrite two_pow_Z by lia. now rewrite <- Zle_Qle.
  - rewrite Hy, Hpow.
    replace (lm + e + 1) with ((lm + 1) + e) by lia.
    rewrite Qpower_plus by lra.
    apply Qmult_lt_compat_r; [apply two_pow_pos|].
    rewrite two_pow_Z by lia. rewrite <- Zlt_Qlt.
    replace (Z.succ lm) with (lm + 1) in Hl2 by lia. exact Hl2.
Qed.

(** The double nearest to 0.35, and three frozen centres with the corner
    of their window. *)
Example frozen_center_ex :
  Binary64.round (7 # 20) = 3152519739159347 # 9007199254740992
  ∧ (sampleCenter true (Point.mk (7 # 20) (23 # 40)) 10 100
     = (7 # 2, 8092405580431359 # 140737488355328)
     ∧ windowCorner (7 # 2) 10 = 2
     ∧ windowCorner (8092405580431359 # 140737488355328) 100 = 55)
  ∧ windowCorner (sampleCenter true (Point.mk (41 # 320) 0) 480 480).1 480
    = 59.
Proof. vm_compute. done. Qed.

(** * The claims *)

Lemma componentToHex_below_16 (c : Z) :
  0 ≤ c < 16 →
  componentToHex c = String "0" (String (hexDigit c) EmptyString).
Proof.
  intros Hc. rewrite componentToHex_byte by lia. unfold hex2.
  by rewrite Z.div_small, Z.mod_small.
Qed.

(** C6.  For channels in [0, 255], [rgbToHex] gives ['#'] followed by the
    zero-padded two-digit lowercase hex of each channel, seven characters in
    all; reading the code back gives the same three channels, hence the
    same [rgb(r, g, b)] string; and a channel below 16 is printed as ['0']
    and one digit. *)
Theorem rgbToHex_roundtrip (r g b : Z) :
  0 ≤ r ≤ 255 → 0 ≤ g ≤ 255 → 0 ≤ b ≤ 255 →
  rgbToHex r g b = "#" +:+ hex2 r +:+ hex2 g +:+ hex2 b
  ∧ String.length (rgbToHex r g b) = 7%nat
  ∧ hexToRgb (rgbToHex r g b) = Some (r, g, b)
  ∧ (∀ r' g' b', hexToRgb (rgbToHex r g b) = Some (r', g', b') →
       rgbString r' g' b' = rgbString r g b)
  ∧ (∀ c, c ∈ [r; g; b] → c < 16 →
       componentToHex c = String "0" (String (hexDigit c) EmptyString)).
Proof.
  intros Hr Hg Hb. split_and!.
  - by apply rgbToHex_bytes.
  - by apply rgbToHex_length.
  - by apply hexToRgb_rgbToHex.
  - intros r' g' b'. rewrite hexToRgb_rgbToHex by done. by intros [= <- <- <-].
  - intros c Hc Hlt. apply componentToHex_below_16.
    rewrite !elem_of_cons in Hc. destruct Hc as [->|[->|[->|Hc]]]; try lia.
    by apply elem_of_nil in Hc.
Qed.

Lemma rgbToHex_roundtrip_witness :
  rgbToHex 255 128 5 = "#ff8005"
  ∧ String.length (rgbToHex 255 128 5) = 7%nat
  ∧ hexToRgb (rgbToHex 255 128 5) = Some (255, 128, 5)
  ∧ (∀ r' g' b', hexToRgb (rgbToHex 255 128 5) = Some (r', g', b') →
       rgbString r' g' b' = rgbString 255 128 5)
  ∧ (∀ c, c ∈ [255; 128; 5] → c < 16 →
       componentToHex c = String "0" (String (hexDigit c) EmptyString)).
Proof. apply (rgbToHex_roundtrip 255 128 5); lia. Defined.

(** C1.  The name of a sampled hex code is resolved by asking colord
    first; chroma-js is asked only when colord yields no name, be it by
    an [undefined] or empty reply or by throwing, and is given the same
    tolerance; when neither yields a name the display name is the hex
    code; and no run of [captureColor] ends in an exception, whatever the
    two libraries do. *)
Theorem name_resolution_chain (colord_toName chroma_name : Resolver)
    (hex : string) :
  run (nameColor colord_toName chroma_name hex)
  = match nameFound (colord_toName hex) with
    | Some n => (Value (capitalizeWords n), [CallColord hex])
    | None =>
        match nameFound (chroma_name hex) with
        | Some n =>
            (Value (capitalizeWords n), [CallColord hex; CallChroma hex])
        | None =>
            (Value (JS.toUpperCase hex), [CallColord hex; CallChroma hex])
        end
    end
  ∧ ∀ frozen pos readWindow app log,
      ∃ app' log',
        captureColor colord_toName chroma_name frozen pos readWindow app log
        = (Value app', log').
Proof.
  split; [apply nameColor_run|].
  intros. apply captureColor_returns.
Qed.

(** C2, the part that fails: with no name from either library the display
    name of [#abcdef] is [#ABCDEF], the leading ['#'] included, and not
    [ABCDEF]. *)
Lemma fallback_name_keeps_hash :
  fst (run (nameColor (λ _, Returns None) (λ _, Throws) "#abcdef"))
  = Value "#ABCDEF"
  ∧ fst (run (nameColor (λ _, Returns None) (λ _, Throws) "#abcdef"))
    ≠ Value "ABCDEF".
Proof. split; [reflexivity|discriminate]. Qed.

(** C2, amended.  The display name of a resolved name is that name with the
    first character of every space-delimited word uppercased and every
    other character unchanged, so that "light sky blue" is shown as
    "Light Sky Blue"; when no lookup yields a name the display name is the
    uppercased hex code with its ['#'], [#ABCDEF] for [#abcdef]. *)
Theorem display_name_format (colord_toName chroma_name : Resolver)
    (hex : string) :
  fst (run (nameColor colord_toName chroma_name hex))
  = Value match nameFound (colord_toName hex), nameFound (chroma_name hex) with
          | Some n, _ => capitalizeFrom true n
          | None, Some n => capitalizeFrom true n
          | None, None => JS.toUpperCase hex
          end
  ∧ capitalizeFrom true "light sky blue" = "Light Sky Blue"
  ∧ JS.toUpperCase "#abcdef" = "#ABCDEF".
Proof.
  split; [|done]. rewrite nameColor_run.
  destruct (nameFound (colord_toName hex)) as [n|];
    [by rewrite capitalizeWords_spec|].
  destruct (nameFound (chroma_name hex)) as [n|]; [|done].
  by rewrite capitalizeWords_spec.
Qed.

Lemma Math_round_within_half (x : Q) :
  (Qabs (inject_Z (JS.Math_round x) - x) <= 1 # 2)%Q.
Proof.
  pose proof (proj1 (Math_round_spec x _) eq_refl) as [H1 H2].
  apply Qabs_Qle_condition. split; lra.
Qed.

Lemma windowCorner_clamp (center : Q) (sourceDimension : Z) :
  windowCorner center sourceDimension
  = JS.Math_round (clamp (center - 2) 0 (inject_Z sourceDimension - 5)).
Proof.
  unfold windowCorner, JS.Math_round. apply Qfloor_comp.
  rewrite halfSampleSize_eq. unfold sampleSize.
  change (inject_Z 2) with 2%Q. change (inject_Z 5) with 5%Q.
  by rewrite clamped_eq.
Qed.

(** C3.  On each axis the corner of the sampling window is
    [round(clamp(center - 2, 0, sourceDimension - 5))], an integer within
    one half of the clamped value; for a 10 by 10 source a centre of
    (0, 0) gives the corner (0, 0) and a centre of (10, 10) gives (5, 5). *)
Theorem window_corner_rounded_clamp (center : Q) (sourceDimension : Z) :
  windowCorner center sourceDimension
  = JS.Math_round (clamp (center - 2) 0 (inject_Z sourceDimension - 5))
  ∧ (Qabs (inject_Z (windowCorner center sourceDimension)
           - clamp (center - 2) 0 (inject_Z sourceDimension - 5)) <= 1 # 2)%Q
  ∧ (windowCorner 0 10, windowCorner 0 10) = (0, 0)
  ∧ (windowCorner 10 10, windowCorner 10 10) = (5, 5).
Proof.
  split_and!; [apply windowCorner_clamp| |done|done].
  rewrite windowCorner_clamp. apply Math_round_within_half.
Qed.

(** The other way of nesting the two bounds agrees with [clamp] whenever
    the source is at least as large as the window. *)
Remark clamp_order_irrelevant (v : Q) (sourceDimension : Z) :
  5 ≤ sourceDimension →
  (clamp v 0 (inject_Z sourceDimension - 5)
   == JS.Math_min (inject_Z sourceDimension - 5) (JS.Math_max 0 v))%Q.
Proof.
  intros Hd. rewrite <- clamped_eq.
  assert (inject_Z 5 <= inject_Z sourceDimension)%Q as Hq
    by (rewrite <- Zle_Qle; lia).
  change (inject_Z 5) with 5%Q in Hq.
  minmax_cases; lra.
Qed.

(** C4.  A pass that samples reads the window whose corner is the clamped
    corner of the target centre, and stores the averages of that window.
    While the view is not frozen the target centre is
    [(sourceWidth / 2, sourceHeight / 2)] whatever the stored crosshair
    position, on which the pass does not depend; while it is frozen the
    target centre is [(crosshairPosition.x * sourceWidth,
    crosshairPosition.y * sourceHeight)], the products being products of
    doubles. *)
Theorem sample_center_live_frozen (colord_toName chroma_name : Resolver)
    (frozen : bool)
    (crosshairPosition crosshairPosition' : CrosshairPosition)
    (readWindow : Source → Z → Z → list Z) (app : App)
    (src : Source) (sourceWidth sourceHeight : Z) :
  selectSource frozen app = Some (src, sourceWidth, sourceHeight) →
  canSample frozen app = true →
  let center : Q * Q :=
    if frozen
    then (Binary64.round
            (Binary64.round (Point.x crosshairPosition)
             * inject_Z sourceWidth)%Q,
          Binary64.round
            (Binary64.round (Point.y crosshairPosition)
             * inject_Z sourceHeight)%Q)
    else ((inject_Z sourceWidth / 2)%Q, (inject_Z sourceHeight / 2)%Q) in
  let pixelData :=
    readWindow src (windowCorner center.1 sourceWidth)
                   (windowCorner center.2 sourceHeight) in
  let app' :=
    commit (captureColor colord_toName chroma_name frozen crosshairPosition
              readWindow app) app in
  sampleCenter frozen crosshairPosition sourceWidth sourceHeight = center
  ∧ match sampleAverage pixelData with
    | (Some red, Some green, Some blue) =>
        ∃ sample, colorData app' = Some sample
                  ∧ (r sample, g sample, b sample) = (red, green, blue)
    | _ => colorData app' = colorData app
    end
  ∧ (frozen = false →
     captureColor colord_toName chroma_name frozen crosshairPosition'
       readWindow app
     = captureColor colord_toName chroma_name frozen crosshairPosition
         readWindow app).
Proof.
  intros Hsource Hcan. cbv zeta.
  assert (sampleCenter frozen crosshairPosition sourceWidth sourceHeight
          = if frozen
            then (Binary64.round
                    (Binary64.round (Point.x crosshairPosition)
                     * inject_Z sourceWidth)%Q,
                  Binary64.round
                    (Binary64.round (Point.y crosshairPosition)
                     * inject_Z sourceHeight)%Q)
            else ((inject_Z sourceWidth / 2)%Q,
                  (inject_Z sourceHeight / 2)%Q)) as Hcenter
    by (by destruct frozen).
  split_and!; [done| |by intros ->].
  destruct (captureColor_sampling colord_toName chroma_name frozen
              crosshairPosition readWindow app [] Hcan)
    as (src' & w' & h' & app' & calls & Hsource' & _ & _ & Hrun & Hres).
  rewrite Hsource in Hsource'. injection Hsource' as <- <- <-.
  cbv zeta in Hres. rewrite Hcenter in Hres.
  unfold commit, run. rewrite Hrun.
  destruct (sampleAverage _) as [[[red|] [green|]] [blue|]];
    try (by subst app').
  destruct Hres as (displayName & _ & ->). by eexists.
Qed.

Lemma sample_center_live_frozen_witness :
  let app :=
    mkApp None true true (Point.mk (23 # 40) (1 # 2)) false None None
      (Some (Canvas.mk 100 100 true)) (Some (Canvas.mk 1 1 true)) ∅ in
  ∃ sample,
    colorData
      (commit
         (captureColor (λ _, Returns None) (λ _, Throws) true
            (Point.mk (23 # 40) (1 # 2))
            (λ _ sx sy, concat (replicate 25 [sx; sy; 0; 255])) app) app)
    = Some sample
    ∧ (r sample, g sample, b sample) = (55, 48, 0).
Proof.
  cbv zeta.
  pose proof (sample_center_live_frozen (λ _, Returns None) (λ _, Throws)
                true (Point.mk (23 # 40) (1 # 2)) (Point.mk 0 0)
                (λ _ sx sy, concat (replicate 25 [sx; sy; 0; 255]))
                (mkApp None true true (Point.mk (23 # 40) (1 # 2)) false None
                   None (Some (Canvas.mk 100 100 true))
                   (Some (Canvas.mk 1 1 true)) ∅)
                FreezeFrame 100 100 eq_refl eq_refl) as (_ & Hread & _).
  exact Hread.
Defined.

(** C9.  When the source is at least 5 wide and 5 high the corner
    [(sx, sy)], a pair of integers, satisfies [0 ≤ sx ≤ width - 5] and
    [0 ≤ sy ≤ height - 5] for every requested centre, so the window read
    lies inside the source; on an axis where the source is smaller than 5
    the corner is 0 and the window reaches past the source. *)
Theorem sampling_window_in_source (sourceWidth sourceHeight : Z)
    (centerX centerY : Q) :
  let sx := windowCorner centerX sourceWidth in
  let sy := windowCorner centerY sourceHeight in
  (5 ≤ sourceWidth → 0 ≤ sx ≤ sourceWidth - 5)
  ∧ (5 ≤ sourceHeight → 0 ≤ sy ≤ sourceHeight - 5)
  ∧ (sourceWidth < 5 → sx = 0 ∧ sourceWidth < sx + 5)
  ∧ (sourceHeight < 5 → sy = 0 ∧ sourceHeight < sy + 5).
Proof.
  cbv zeta. split_and!.
  - apply windowCorner_bounds.
  - apply windowCorner_bounds.
  - intros H. rewrite windowCorner_small by done. lia.
  - intros H. rewrite windowCorner_small by done. lia.
Qed.

Lemma sampling_window_in_source_witness :
  (0 ≤ windowCorner ((3 # 2) * inject_Z 1920) 1920 ≤ 1920 - 5)
  ∧ (windowCorner (inject_Z 3 / 2) 3 = 0 ∧ 3 < windowCorner (inject_Z 3 / 2) 3 + 5).
Proof.
  pose proof (sampling_window_in_source 1920 3 ((3 # 2) * inject_Z 1920)
                (inject_Z 3 / 2)) as (Hw & _ & _ & Hh).
  split; [apply Hw; lia | apply Hh; lia].
Defined.

(** ** Averages *)

Lemma channelSum_sameRGB (c : nat) (pixelData pixelData' : list Z) :
  (c < 3)%nat → sameRGB pixelData pixelData' →
  channelSum c pixelData = channelSum c pixelData'.
Proof.
  intros Hc Hsame. unfold channelSum, channelEntries. f_equal.
  apply map_ext_in. intros k Hk%in_seq. apply Hsame; lia.
Qed.

Lemma sum_constant (f : nat → Z) (v : Z) (n : nat) :
  ∀ k, (∀ j, (k ≤ j < k + n)%nat → f j = v) →
       foldr Z.add 0 (map f (seq k n)) = Z.of_nat n * v.
Proof.
  induction n as [|n IH]; intros k Hf; [done|].
  cbn [seq map foldr]. rewrite IH by (intros j Hj; apply Hf; lia).
  rewrite Hf by lia. lia.
Qed.

Lemma channelSum_uniform (c : nat) (v : Z) (pixelData : list Z) :
  (∀ k, (k < 25)%nat → nth (4 * k + c) pixelData 0 = v) →
  channelSum c pixelData = 25 * v.
Proof.
  intros Hv. unfold channelSum, channelEntries.
  rewrite (sum_constant _ v 25 0); [done|]. intros j Hj. apply Hv. lia.
Qed.

(** C5.  For a buffer of 25 RGBA pixels every sampled channel is the
    integer nearest to the unweighted arithmetic mean of that channel over
    the 25 pixels; the alpha entries have no influence; and when every
    pixel is exactly (100, 150, 200) the sample is exactly r = 100,
    g = 150, b = 200. *)
Theorem sample_is_rounded_mean (pixelData : list Z) :
  length pixelData = 100%nat →
  (∃ r g b,
     sampleAverage pixelData = (Some r, Some g, Some b)
     ∧ nearestInteger (channelMean 0 pixelData) r
     ∧ nearestInteger (channelMean 1 pixelData) g
     ∧ nearestInteger (channelMean 2 pixelData) b)
  ∧ (∀ pixelData', length pixelData' = 100%nat →
       sameRGB pixelData pixelData' →
       sampleAverage pixelData' = sampleAverage pixelData)
  ∧ (uniformRGB 100 150 200 pixelData →
       sampleAverage pixelData = (Some 100, Some 150, Some 200)).
Proof.
  intros Hlen. rewrite sampleAverage_closed by done. split_and!.
  - eexists _, _, _. split; [reflexivity|].
    split_and!; apply Math_round_mean_nearest.
  - intros pixelData' Hlen' Hsame. rewrite sampleAverage_closed by done.
    unfold channelMean.
    by rewrite <- !(channelSum_sameRGB _ pixelData pixelData') by (done || lia).
  - intros Hu. unfold channelMean.
    rewrite (channelSum_uniform 0 100), (channelSum_uniform 1 150),
      (channelSum_uniform 2 200); [done|..];
      intros k Hk; destruct (Hu k Hk) as (H0 & H1 & H2);
      by rewrite ?Nat.add_0_r.
Qed.

Lemma sample_is_rounded_mean_witness :
  sampleAverage (concat (replicate 25 [100; 150; 200; 255]))
  = (Some 100, Some 150, Some 200).
Proof.
  destruct (sample_is_rounded_mean (concat (replicate 25 [100; 150; 200; 255]))
              eq_refl) as (_ & _ & Huniform).
  apply Huniform. intros k Hk.
  do 25 (destruct k as [|k]; [done|]). lia.
Defined.

(** C10.  When the buffer read back holds 100 bytes, no channel average is
    [NaN] and each of r, g, b is an integer in [0, 255]; a run of
    [captureColor] that passes its guards therefore never takes the abort
    branch: it stores a sample, whose channels are in range and whose hex
    code, printed from those channels, has exactly 7 characters. *)
Theorem sample_channels_valid (colord_toName chroma_name : Resolver)
    (frozen : bool) (pos : CrosshairPosition)
    (readWindow : Source → Z → Z → list Z) (app : App) :
  (∀ src sx sy, length (readWindow src sx sy) = 100%nat
                ∧ Forall isByte (readWindow src sx sy)) →
  canSample frozen app = true →
  (∀ src sx sy, ∃ r g b,
     sampleAverage (readWindow src sx sy) = (Some r, Some g, Some b)
     ∧ isByte r ∧ isByte g ∧ isByte b
     ∧ String.length (rgbToHex r g b) = 7%nat)
  ∧ ∃ sample,
      colorData (commit (captureColor colord_toName chroma_name frozen pos
                           readWindow app) app) = Some sample
      ∧ validSample sample
      ∧ hex sample = rgbToHex (r sample) (g sample) (b sample)
      ∧ rgb sample = rgbString (r sample) (g sample) (b sample).
Proof.
  intros Hread Hcan.
  assert (∀ src sx sy, ∃ r g b,
     sampleAverage (readWindow src sx sy) = (Some r, Some g, Some b)
     ∧ isByte r ∧ isByte g ∧ isByte b
     ∧ String.length (rgbToHex r g b) = 7%nat) as Havg.
  { intros src sx sy. destruct (Hread src sx sy) as [Hlen Hbytes].
    rewrite sampleAverage_closed by done. eexists _, _, _.
    split; [reflexivity|].
    assert (∀ c, isByte (JS.Math_round (channelMean c (readWindow src sx sy))))
      as Hb by (intros c; by apply Math_round_mean_byte, channelSum_bound).
    split_and!; try apply Hb. apply rgbToHex_length; apply Hb. }
  split; [done|].
  unfold commit, run.
  destruct (captureColor_sampling colord_toName chroma_name frozen pos
              readWindow app [] Hcan)
    as (src & w & h & app' & calls & _ & _ & _ & -> & Hres).
  cbv zeta in Hres.
  match type of Hres with
  | context [readWindow ?s ?x ?y] =>
      destruct (Havg s x y) as (r0 & g0 & b0 & Hsome & Hr & Hg & Hb & Hlen)
  end.
  rewrite Hsome in Hres. destruct Hres as (displayName & _ & ->).
  eexists. split; [reflexivity|]. by split_and!.
Qed.

Lemma sample_channels_valid_witness :
  ∃ sample,
    colorData
      (commit
         (captureColor (λ _, Returns None) (λ _, Throws) false
            (Point.mk (1 # 2) (1 # 2))
            (λ _ _ _, concat (replicate 25 [100; 150; 200; 255]))
            (initialApp (Some (Video.mk None false 4 1920 1080))
               (Some (Canvas.mk 300 150 true)) (Some (Canvas.mk 1 1 true))))
         (initialApp (Some (Video.mk None false 4 1920 1080))
            (Some (Canvas.mk 300 150 true)) (Some (Canvas.mk 1 1 true))))
    = Some sample
    ∧ validSample sample
    ∧ hex sample = rgbToHex (r sample) (g sample) (b sample)
    ∧ rgb sample = rgbString (r sample) (g sample) (b sample).
Proof.
  apply (sample_channels_valid (λ _, Returns None) (λ _, Throws) false
           (Point.mk (1 # 2) (1 # 2))
           (λ _ _ _, concat (replicate 25 [100; 150; 200; 255]))).
  - intros _ _ _. split; [reflexivity|].
    repeat (constructor; [unfold isByte; lia|]). constructor.
  - reflexivity.
Defined.

(** C7.  From any state, [stopCamera] leaves [isCameraOn] and [isFrozen]
    false, every track of the stream the application held stopped, the
    stored stream handle cleared and the video element without a source. *)
Theorem stopCamera_invariants (app : App) :
  isCameraOn (stopCamera app) = false
  ∧ isFrozen (stopCamera app) = false
  ∧ streamRef (stopCamera app) = None
  ∧ Forall (λ track, tracks (stopCamera app) !! track = Some Ended)
           (activeTracks app)
  ∧ (videoRef (stopCamera app) ≫= Video.srcObject) = None.
Proof.
  destruct app as [sample on frozen pos starting [stream|] [video|] fc sc store];
    cbv [stopCamera activeTracks setIsFrozen setIsCameraOn setVideo
         setStreamRef setTracks isCameraOn isFrozen streamRef videoRef tracks];
    split_and!; try reflexivity; try (by apply Forall_nil).
  all: apply Forall_forall; intros track Hin;
    by apply foldl_stopTrack_ended.
Qed.

Example stopCamera_frozen_ex :
  let stream := mkStream [7%nat; 9%nat] in
  let app :=
    mkApp None true true (Point.mk (1 # 4) (3 # 4)) false (Some stream)
      (Some (Video.mk (Some stream) true 4 1920 1080))
      (Some (Canvas.mk 1920 1080 true)) (Some (Canvas.mk 5 5 true))
      (<[7%nat := Live]> (<[9%nat := Live]> ∅)) in
  isCameraOn (stopCamera app) = false ∧ isFrozen (stopCamera app) = false
  ∧ streamRef (stopCamera app) = None
  ∧ tracks (stopCamera app) !! 7%nat = Some Ended
  ∧ tracks (stopCamera app) !! 9%nat = Some Ended.
Proof. cbv zeta. split_and!; reflexivity. Qed.

(** C8.  Every crosshair position the application ever stores has both
    coordinates in [0, 1]: it starts at (0.5, 0.5), entering the frozen
    view resets it to (0.5, 0.5), and a click delivered to the frozen
    canvas stores the offset of the pointer from the canvas' corner divided
    by the canvas' rendered size, unclamped, which lies in [0, 1]; a click
    while the view is not frozen leaves the position as it was. *)
Theorem crosshair_in_unit_square (colord_toName chroma_name : Resolver)
    (video : option Video.t) (freezeFrameCanvas samplingCanvas : option Canvas.t)
    (evs : list Event) :
  Forall deliveredEvent evs →
  crosshairPosition (initialApp video freezeFrameCanvas samplingCanvas)
  = Point.mk (1 # 2) (1 # 2)
  ∧ inUnitSquare
      (crosshairPosition
         (runEvents colord_toName chroma_name
            (initialApp video freezeFrameCanvas samplingCanvas) evs))
  ∧ (∀ app, isFrozen app = false → isFrozen (handleToggleFreeze app) = true →
       crosshairPosition (handleToggleFreeze app) = Point.mk (1 # 2) (1 # 2))
  ∧ (∀ event app, isFrozen app = true →
       crosshairPosition (handleCanvasClick event app)
       = Point.mk ((clientX event - DOMRect.left (boundingClientRect event))
                   / DOMRect.width (boundingClientRect event))%Q
                  ((clientY event - DOMRect.top (boundingClientRect event))
                   / DOMRect.height (boundingClientRect event))%Q)
  ∧ (∀ event app, isFrozen app = false → handleCanvasClick event app = app).
Proof.
  intros Hevs. split_and!.
  - reflexivity.
  - apply runEvents_inUnitSquare; [done|]. apply center_inUnitSquare.
  - intros app Hlive. unfold handleToggleFreeze.
    destruct (videoRef app) as [v|]; [|congruence].
    destruct (freezeFrameCanvasRef app) as [c|]; [|congruence].
    rewrite Hlive. reflexivity.
  - intros event app Hfrozen. unfold handleCanvasClick. by rewrite Hfrozen.
  - intros event app Hlive. unfold handleCanvasClick. by rewrite Hlive.
Qed.

Lemma crosshair_in_unit_square_witness :
  inUnitSquare
    (crosshairPosition
       (runEvents (λ _, Returns None) (λ _, Throws)
          (initialApp (Some (Video.mk None true 0 0 0))
             (Some (Canvas.mk 300 150 true)) (Some (Canvas.mk 1 1 true)))
          [ToggleCamera; CameraGranted (mkStream [1%nat]);
           VideoUpdate 4 1920 1080; LoadedMetadata; ToggleFreeze;
           CanvasClick
             (mkMouse 100 430 (DOMRect.mk 0 30 400 (800 # 1)))])).
Proof.
  apply (crosshair_in_unit_square (λ _, Returns None) (λ _, Throws)
           (Some (Video.mk None true 0 0 0))
           (Some (Canvas.mk 300 150 true)) (Some (Canvas.mk 1 1 true))).
  repeat (apply Forall_cons; split); try apply Forall_nil; try exact I.
  unfold deliveredEvent, delivered, Qlt, Qle. cbn. lia.
Defined.

Example crosshair_after_click_ex :
  crosshairPosition
    (runEvents (λ _, Returns None) (λ _, Throws)
       (initialApp (Some (Video.mk None true 0 0 0))
          (Some (Canvas.mk 300 150 true)) (Some (Canvas.mk 1 1 true)))
       [ToggleCamera; CameraGranted (mkStream [1%nat]);
        VideoUpdate 4 1920 1080; LoadedMetadata; ToggleFreeze;
        CanvasClick (mkMouse 100 430 (DOMRect.mk 0 30 400 (800 # 1)))])
  = Point.mk ((100 - 0) / 400)%Q ((430 - 30) / (800 # 1))%Q.
Proof. reflexivity. Qed.

(** * Further properties of the code *)

(** ** Hex codes *)

(** Reading back what [componentToHex] prints gives the number printed,
    for every integer: the padding zero does not change the value, and a
    negative number keeps its sign. *)
Theorem componentToHex_parse (c : Z) :
  JS.parseInt16 (componentToHex c) = Some c
  ∧ (2 ≤ String.length (componentToHex c))%nat.
Proof.
  unfold componentToHex. pose proof (parseInt16_toString16 c) as H.
  destruct (JS.toString16 c) as [|d [|d' s]]; cbv zeta.
  - discriminate H.
  - change (String.length (String d EmptyString) =? 1)%nat with true.
    cbv iota. split; [|change (2 ≤ 2)%nat; lia]. revert H.
    destruct d as [[|] [|] [|] [|] [|] [|] [|] [|]]; vm_compute;
      intros H; first [exact H | discriminate H].
  - change (String.length (String d (String d' s)) =? 1)%nat with false.
    cbv iota. split; [exact H|cbn; lia].
Qed.

(** Two colours with channels in [0, 255] that get the same hex code are
    the same colour. *)
Theorem rgbToHex_injective (r g b r' g' b' : Z) :
  0 ≤ r ≤ 255 → 0 ≤ g ≤ 255 → 0 ≤ b ≤ 255 →
  0 ≤ r' ≤ 255 → 0 ≤ g' ≤ 255 → 0 ≤ b' ≤ 255 →
  rgbToHex r g b = rgbToHex r' g' b' → (r, g, b) = (r', g', b').
Proof.
  intros Hr Hg Hb Hr' Hg' Hb' Heq.
  pose proof (hexToRgb_rgbToHex r g b Hr Hg Hb) as H.
  rewrite Heq, hexToRgb_rgbToHex in H by done. by injection H as -> -> ->.
Qed.

Lemma rgbToHex_injective_witness :
  (0 + 255, 128, 5) = (255, 64 * 2, 5).
Proof.
  apply (rgbToHex_injective (0 + 255) 128 5 255 (64 * 2) 5);
    [lia..|reflexivity].
Defined.

(** Outside the byte range the same code stands for different colours. *)
Example rgbToHex_ambiguous : rgbToHex 1 564 187 = rgbToHex 1 35 1211.
Proof. reflexivity. Qed.

(** ** Capitalisation *)

Lemma upperChar_space (c : ascii) :
  Ascii.eqb (JS.upperChar c) " " = Ascii.eqb c " ".
Proof. by destruct c as [[|] [|] [|] [|] [|] [|] [|] [|]]. Qed.

Lemma upperChar_idem (c : ascii) :
  JS.upperChar (JS.upperChar c) = JS.upperChar c.
Proof. by destruct c as [[|] [|] [|] [|] [|] [|] [|] [|]]. Qed.

Lemma capitalizeFrom_length (s : string) :
  ∀ startOfWord,
    String.length (capitalizeFrom startOfWord s) = String.length s.
Proof.
  induction s as [|c s IH]; intros startOfWord; [done|].
  cbn [capitalizeFrom String.length]. by rewrite IH.
Qed.

Lemma capitalizeFrom_idem (s : string) :
  ∀ startOfWord,
    capitalizeFrom startOfWord (capitalizeFrom startOfWord s)
    = capitalizeFrom startOfWord s.
Proof.
  induction s as [|c s IH]; intros startOfWord; [done|].
  cbn [capitalizeFrom]. destruct startOfWord.
  - by rewrite upperChar_space, upperChar_idem, IH.
  - by rewrite IH.
Qed.

Lemma capitalizeFrom_spaces (s : string) :
  ∀ startOfWord,
    length (JS.split_space (capitalizeFrom startOfWord s))
    = length (JS.split_space s).
Proof.
  induction s as [|c s IH]; intros startOfWord; [done|].
  cbn [capitalizeFrom JS.split_space].
  replace (Ascii.eqb (if startOfWord then JS.upperChar c else c) " ")
    with (Ascii.eqb c " ")
    by (destruct startOfWord; by rewrite ?upperChar_space).
  specialize (IH (Ascii.eqb c " ")).
  destruct (Ascii.eqb c " "); cbn [length]; [by rewrite IH|].
  by destruct (JS.split_space (capitalizeFrom false s)),
       (JS.split_space s).
Qed.

(** Capitalising a name keeps its length and its number of words, and a
    capitalised name is left as it is by a second capitalisation. *)
Theorem capitalizeWords_shape (colorName : string) :
  String.length (capitalizeWords colorName) = String.length colorName
  ∧ length (JS.split_space (capitalizeWords colorName))
    = length (JS.split_space colorName)
  ∧ capitalizeWords (capitalizeWords colorName) = capitalizeWords colorName.
Proof.
  rewrite !capitalizeWords_spec. split_and!.
  - apply capitalizeFrom_length.
  - apply capitalizeFrom_spaces.
  - apply capitalizeFrom_idem.
Qed.

(** ** The averaging loop on any buffer *)

Lemma sumLoop_done (pixelData : list Z) (fuel i : nat)
    (totals : option Z * option Z * option Z) :
  (length pixelData ≤ i)%nat → sumLoop fuel i pixelData totals = totals.
Proof.
  intros Hlen. destruct fuel; [done|]. cbn [sumLoop].
  destruct (Nat.ltb_spec i (length pixelData)); [lia|done].
Qed.

Lemma sumLoop_drop (fuel : nat) :
  ∀ (pixelData : list Z) i totals,
    sumLoop fuel i pixelData totals
    = sumLoop fuel 0 (drop i pixelData) totals.
Proof.
  induction fuel as [|fuel IH]; intros pixelData i totals; [done|].
  cbn [sumLoop]. rewrite length_drop.
  destruct (Nat.ltb_spec i (length pixelData)) as [Hlt|Hge];
    destruct (Nat.ltb_spec 0 (length pixelData - i)); try lia; [|done].
  destruct totals as [[totalR totalG] totalB].
  rewrite !lookup_drop, !Nat.add_0_r.
  rewrite (IH pixelData (i + 4)%nat), (IH (drop i pixelData) (0 + 4)%nat).
  by rewrite drop_drop.
Qed.

Lemma sumLoop_NaN :
  ∀ n pixelData, length pixelData = n →
  ∀ fuel tR tG tB, (n ≤ fuel)%nat →
    let totals := sumLoop fuel 0 pixelData (Some tR, Some tG, Some tB) in
    isNaN totals.1.1 = false
    ∧ isNaN totals.1.2 = (n mod 4 =? 1)%nat
    ∧ isNaN totals.2 = ((n mod 4 =? 1) || (n mod 4 =? 2))%nat.
Proof.
  induction n as [n IH] using lt_wf_ind.
  intros pixelData Hlen fuel tR tG tB Hfuel.
  destruct pixelData as [|red [|green [|blue [|alpha rest]]]];
    cbn [length] in Hlen; subst n.
  - by destruct fuel.
  - destruct fuel; [lia|]. cbn [sumLoop length]. cbn.
    by rewrite sumLoop_done by (cbn; lia).
  - destruct fuel; [lia|]. cbn [sumLoop length]. cbn.
    by rewrite sumLoop_done by (cbn; lia).
  - destruct fuel; [lia|]. cbn [sumLoop length]. cbn.
    by rewrite sumLoop_done by (cbn; lia).
  - destruct fuel as [|fuel]; [lia|].
    cbn [sumLoop]. change (0 <? _)%nat with true. cbv iota.
    rewrite sumLoop_drop. cbn [lookup list_lookup drop addEntry Nat.add].
    replace (S (S (S (S (length rest)))) mod 4)%nat
      with (length rest mod 4)%nat
      by (change (S (S (S (S (length rest)))))
            with (4 + length rest)%nat;
          rewrite <- (Nat.Div0.add_mod_idemp_l 4); done).
    apply (IH (length rest)); [lia|done|lia].
Qed.

(** Whatever the length of the buffer, the red average is a number; the
    green one is [NaN] exactly when the length is 1 more than a multiple
    of 4, and the blue one exactly when it is 1 or 2 more: these are the
    buffers on which [captureColor] gives up. *)
Theorem sampleAverage_NaN (pixelData : list Z) :
  let n := length pixelData in
  isNaN (sampleAverage pixelData).1.1 = false
  ∧ isNaN (sampleAverage pixelData).1.2 = (n mod 4 =? 1)%nat
  ∧ isNaN (sampleAverage pixelData).2
    = ((n mod 4 =? 1) || (n mod 4 =? 2))%nat.
Proof.
  cbv zeta. unfold sampleAverage.
  pose proof (sumLoop_NaN (length pixelData) pixelData eq_refl
                (length pixelData) 0 0 0 ltac:(lia)) as H.
  cbv zeta in H.
  destruct (sumLoop _ _ _ _) as [[[totalR|] [totalG|]] [totalB|]];
    exact H.
Qed.

(** A buffer of any whole number of pixels is averaged with the divisor
    25, whatever that number is. *)
Theorem sampleAverage_divisor (pixelData : list Z) (pixels : nat) :
  length pixelData = (4 * pixels)%nat →
  sampleAverage pixelData
  = (Some (JS.Math_round
             (inject_Z (foldr Z.add 0 (channelEntries 0 pixelData 0 pixels))
              / 25)),
     Some (JS.Math_round
             (inject_Z (foldr Z.add 0 (channelEntries 1 pixelData 0 pixels))
              / 25)),
     Some (JS.Math_round
             (inject_Z (foldr Z.add 0 (channelEntries 2 pixelData 0 pixels))
              / 25))).
Proof.
  intros Hlen. unfold sampleAverage.
  pose proof (sumLoop_closed pixelData pixels Hlen (length pixelData) 0 0 0 0
                ltac:(lia) ltac:(lia)) as H.
  change (4 * 0)%nat with 0%nat in H. rewrite H, Nat.sub_0_r, !Z.add_0_l.
  reflexivity.
Qed.

Lemma sampleAverage_divisor_witness :
  sampleAverage [250; 250; 250; 255] = (Some 10, Some 10, Some 10).
Proof. apply (sampleAverage_divisor [250; 250; 250; 255] 1). reflexivity. Defined.

(** ** What a sampling pass touches *)

Lemma captureColor_effect (colord_toName chroma_name : Resolver)
    (frozen : bool) (pos : CrosshairPosition)
    (readWindow : Source → Z → Z → list Z) (app : App) (log : list Call) :
  ∃ app' calls,
    captureColor colord_toName chroma_name frozen pos readWindow app log
    = (Value app', log ++ calls)
    ∧ sameOutsideSample app app'
    ∧ (samplingCanvasRef app' = samplingCanvasRef app
       ∨ samplingCanvasRef app' = Some (Canvas.mk 5 5 true))
    ∧ ((calls = [] ∧ colorData app' = colorData app)
       ∨ ∃ sample,
           colorData app' = Some sample
           ∧ hex sample = rgbToHex (r sample) (g sample) (b sample)
           ∧ rgb sample = rgbString (r sample) (g sample) (b sample)
           ∧ run (nameColor colord_toName chroma_name (hex sample))
             = (Value (name sample), calls)).
Proof.
  destruct (canSample frozen app) eqn:Hcan.
  - revert Hcan. unfold canSample, captureColor.
    destruct (selectSource frozen app) as [[[src w] h]|]; [|done].
    destruct (samplingCanvasRef app) as [samplingCanvas|] eqn:Hcanvas; [|done].
    destruct ((w =? 0) || (h =? 0)); [done|].
    destruct (Canvas.context2d samplingCanvas); [intros _|done].
    cbn [negb]. unfold sampleCenter. cbv beta iota zeta.
    set (app1 := setSamplingCanvas _ app).
    assert (sameOutsideSample app app1) as Hframe by done.
    match goal with
    | |- context [sampleAverage ?p] =>
        destruct (sampleAverage p) as [[[r0|] [g0|]] [b0|]]
    end;
      try (exists app1, []; rewrite app_nil_r;
           split_and!; [done|done|by right|by left]).
    unfold mbind, M_bind, bind. rewrite nameColor_at.
    destruct (nameColor_value colord_toName chroma_name (rgbToHex r0 g0 b0))
      as [displayName Hname].
    destruct (run (nameColor colord_toName chroma_name (rgbToHex r0 g0 b0)))
      as [out calls] eqn:Hrun.
    cbn [fst snd] in *. subst out.
    eexists _, calls. split_and!; [reflexivity|done|by right|].
    right. eexists. split_and!; [reflexivity|done..].
  - rewrite captureColor_guarded by done. exists app, [].
    rewrite app_nil_r. split_and!; [done|done|by left|by left].
Qed.

Lemma commit_captureColor_frame (colord_toName chroma_name : Resolver)
    (frozen : bool) (pos : CrosshairPosition)
    (readWindow : Source → Z → Z → list Z) (app : App) :
  sameOutsideSample app
    (commit (captureColor colord_toName chroma_name frozen pos readWindow app)
            app).
Proof.
  unfold commit, run.
  by destruct (captureColor_effect colord_toName chroma_name frozen pos
                 readWindow app [])
    as (app' & calls & -> & Hframe & _).
Qed.

(** A pass of [captureColor] changes nothing but [colorData] and the size
    of the sampling canvas, which it leaves untouched or 5 by 5; the
    sample it stores, if any, has its two texts printed from its own
    channels. *)
Theorem captureColor_frame (colord_toName chroma_name : Resolver)
    (frozen : bool) (pos : CrosshairPosition)
    (readWindow : Source → Z → Z → list Z) (app : App) :
  let app' :=
    commit (captureColor colord_toName chroma_name frozen pos readWindow app)
           app in
  sameOutsideSample app app'
  ∧ (samplingCanvasRef app' = samplingCanvasRef app
     ∨ samplingCanvasRef app' = Some (Canvas.mk 5 5 true))
  ∧ (colorData app' = colorData app
     ∨ ∃ sample, colorData app' = Some sample
                 ∧ hex sample = rgbToHex (r sample) (g sample) (b sample)
                 ∧ rgb sample = rgbString (r sample) (g sample) (b sample)).
Proof.
  cbv zeta. unfold commit, run.
  destruct (captureColor_effect colord_toName chroma_name frozen pos
              readWindow app [])
    as (app' & calls & -> & Hframe & Hcanvas & Hcolor).
  split_and!; [done|done|].
  destruct Hcolor as [[_ Hsame]|(sample & Hsome & Hhex & Hrgb & _)];
    [by left|right; by exists sample].
Qed.

(** A pass keeps the log of the calls made before it; it calls no library
    unless it stores a sample, and then it asks colord once and chroma-js
    at most once, after colord, both for the hex code it stores. *)
Theorem captureColor_calls (colord_toName chroma_name : Resolver)
    (frozen : bool) (pos : CrosshairPosition)
    (readWindow : Source → Z → Z → list Z) (app : App) (log : list Call) :
  ∃ app' calls,
    captureColor colord_toName chroma_name frozen pos readWindow app log
    = (Value app', log ++ calls)
    ∧ ((calls = [] ∧ colorData app' = colorData app)
       ∨ ∃ sample,
           colorData app' = Some sample
           ∧ (calls = [CallColord (hex sample)]
              ∨ calls = [CallColord (hex sample); CallChroma (hex sample)])).
Proof.
  destruct (captureColor_effect colord_toName chroma_name frozen pos
              readWindow app log)
    as (app' & calls & Hrun & _ & _ & Hcolor).
  exists app', calls. split; [done|].
  destruct Hcolor as [?|(sample & Hsome & _ & _ & Hname)]; [by left|].
  right. exists sample. split; [done|].
  rewrite nameColor_run in Hname.
  destruct (nameFound (colord_toName (hex sample)));
    [left; congruence|].
  destruct (nameFound (chroma_name (hex sample))); right; congruence.
Qed.

(** ** The handlers, one at a time *)

(** Stopping twice is stopping once, and stopping leaves the last sample,
    the crosshair, the starting flag and the two canvases as they were. *)
Theorem stopCamera_idempotent (app : App) :
  stopCamera (stopCamera app) = stopCamera app
  ∧ colorData (stopCamera app) = colorData app
  ∧ crosshairPosition (stopCamera app) = crosshairPosition app
  ∧ isStartingCamera (stopCamera app) = isStartingCamera app
  ∧ freezeFrameCanvasRef (stopCamera app) = freezeFrameCanvasRef app
  ∧ samplingCanvasRef (stopCamera app) = samplingCanvasRef app.
Proof.
  by destruct app
    as [sample on frozen pos starting [stream|] [video|] fc sc store].
Qed.

(** [stopCamera] stops the tracks of the stream it holds and no other. *)
Theorem stopCamera_spares_other_tracks (app : App) (track : nat) :
  track ∉ activeTracks app →
  tracks (stopCamera app) !! track = tracks app !! track.
Proof.
  destruct app
    as [sample on frozen pos starting [stream|] [video|] fc sc store];
    cbn; intros Hnot; try done; by apply foldl_stopTrack_other.
Qed.

Lemma stopCamera_spares_other_tracks_witness :
  let app :=
    mkApp None true false (Point.mk (1 # 2) (1 # 2)) false
      (Some (mkStream [7%nat])) None None None
      (<[7%nat := Live]> (<[8%nat := Live]> ∅)) in
  tracks (stopCamera app) !! 8%nat = tracks app !! 8%nat.
Proof.
  cbv zeta. apply stopCamera_spares_other_tracks.
  cbn. intros Hin. apply list_elem_of_singleton in Hin. discriminate Hin.
Defined.

(** A camera request that is refused leaves an idle application exactly
    as it was before the request. *)
Theorem cameraDenied_restores (app : App) :
  isCameraOn app = false → isStartingCamera app = false →
  cameraDenied (handleToggleCamera app) = app.
Proof.
  destruct app as [sample on frozen pos starting stream video fc sc store].
  cbn. by intros -> ->.
Qed.

Lemma cameraDenied_restores_witness :
  cameraDenied (handleToggleCamera (initialApp None None None))
  = initialApp None None None.
Proof. apply (cameraDenied_restores (initialApp None None None)); reflexivity. Defined.

Lemma windowCorner_Qeq (center center' : Q) (sourceDimension : Z) :
  (center == center')%Q →
  windowCorner center sourceDimension = windowCorner center' sourceDimension.
Proof.
  intros Heq. unfold windowCorner, JS.Math_round. apply Qfloor_comp.
  minmax_cases; lra.
Qed.

(** Entering the frozen view makes the freeze canvas, sized like the
    video, the source of the samples, and the window sampled at the reset
    crosshair is the window a live sample of that video reads. *)
Theorem freeze_keeps_window (app : App) (video : Video.t) (canvas : Canvas.t)
    (stored : CrosshairPosition) :
  videoRef app = Some video → freezeFrameCanvasRef app = Some canvas →
  isFrozen app = false →
  let app' := handleToggleFreeze app in
  let w := Video.videoWidth video in
  let h := Video.videoHeight video in
  isFrozen app' = true
  ∧ selectSource true app' = Some (FreezeFrame, w, h)
  ∧ windowCorner (sampleCenter true (crosshairPosition app') w h).1 w
    = windowCorner (sampleCenter false stored w h).1 w
  ∧ windowCorner (sampleCenter true (crosshairPosition app') w h).2 h
    = windowCorner (sampleCenter false stored w h).2 h.
Proof.
  intros Hvideo Hcanvas Hlive. cbv zeta. unfold handleToggleFreeze.
  rewrite Hvideo, Hcanvas, Hlive. cbn [negb].
  split_and!; [reflexivity|reflexivity| |];
    apply windowCorner_Qeq; cbn [sampleCenter fst snd];
    rewrite round_half_width; reflexivity.
Qed.

Lemma freeze_keeps_window_witness :
  let app :=
    mkApp None true false (Point.mk (1 # 4) (3 # 4)) false None
      (Some (Video.mk None false 4 1921 1080))
      (Some (Canvas.mk 300 150 true)) (Some (Canvas.mk 5 5 true)) ∅ in
  selectSource true (handleToggleFreeze app) = Some (FreezeFrame, 1921, 1080).
Proof.
  cbv zeta.
  apply (freeze_keeps_window _ (Video.mk None false 4 1921 1080)
           (Canvas.mk 300 150 true) (Point.mk (1 # 4) (3 # 4)));
    reflexivity.
Defined.

(** Freezing and resuming brings the view back to live with the video
    playing; what stays changed is the crosshair, now at the centre, and
    the freeze canvas, now sized like the video. *)
Theorem freeze_resume (app : App) (video : Video.t) (canvas : Canvas.t) :
  videoRef app = Some video → freezeFrameCanvasRef app = Some canvas →
  isFrozen app = false →
  handleToggleFreeze (handleToggleFreeze app)
  = setFreezeFrameCanvas
      (Some (Canvas.mk (Video.videoWidth video) (Video.videoHeight video)
               (Canvas.context2d canvas)))
      (setCrosshairPosition (Point.mk (1 # 2) (1 # 2))
         (setVideo
            (Some (Video.mk (Video.srcObject video) false
                     (Video.readyState video) (Video.videoWidth video)
                     (Video.videoHeight video))) app)).
Proof.
  destruct app as [sample on frozen pos starting stream v fc sc store].
  cbn. by intros -> -> ->.
Qed.

Lemma freeze_resume_witness :
  isFrozen
    (handleToggleFreeze
       (handleToggleFreeze
          (mkApp None true false (Point.mk (1 # 4) (3 # 4)) false None
             (Some (Video.mk None false 4 1920 1080))
             (Some (Canvas.mk 300 150 true)) None ∅)))
  = false.
Proof.
  rewrite (freeze_resume _ (Video.mk None false 4 1920 1080)
             (Canvas.mk 300 150 true)); reflexivity.
Defined.

(** Resuming the live view does not move the crosshair: it is drawn where
    the last click put it, in the live colours, while the samples are
    taken at the centre of the source. *)
Theorem resume_keeps_crosshair (app : App) (video : Video.t)
    (canvas : Canvas.t) (sourceWidth sourceHeight : Z) :
  videoRef app = Some video → freezeFrameCanvasRef app = Some canvas →
  isFrozen app = true → isCameraOn app = true →
  let app' := handleToggleFreeze app in
  isFrozen app' = false
  ∧ View.crosshairView (render app')
    = Some (View.mkCrosshair (Point.x (crosshairPosition app) * 100)%Q
              (Point.y (crosshairPosition app) * 100)%Q false)
  ∧ sampleCenter (isFrozen app') (crosshairPosition app')
      sourceWidth sourceHeight
    = ((inject_Z sourceWidth / 2)%Q, (inject_Z sourceHeight / 2)%Q).
Proof.
  destruct app as [sample on frozen pos starting stream v fc sc store].
  cbn. by intros -> -> -> ->.
Qed.

Lemma resume_keeps_crosshair_witness :
  View.crosshairView
    (render
       (handleToggleFreeze
          (mkApp None true true (Point.mk (1 # 4) (3 # 4)) false None
             (Some (Video.mk None true 4 1920 1080))
             (Some (Canvas.mk 1920 1080 true)) None ∅)))
  = Some (View.mkCrosshair ((1 # 4) * 100)%Q ((3 # 4) * 100)%Q false).
Proof.
  pose proof (resume_keeps_crosshair
                (mkApp None true true (Point.mk (1 # 4) (3 # 4)) false None
                   (Some (Video.mk None true 4 1920 1080))
                   (Some (Canvas.mk 1920 1080 true)) None ∅)
                (Video.mk None true 4 1920 1080)
                (Canvas.mk 1920 1080 true) 1920 1080
                eq_refl eq_refl eq_refl eq_refl) as (_ & Hview & _).
  exact Hview.
Defined.



(** Whenever [App] renders the camera controls, their camera button stops
    the camera and the freeze button is there: the start label of
    [CameraControls] is never shown. *)
Theorem controls_as_rendered (app : App) :
  View.controlsView (render app)
  = if isCameraOn app
    then Some (View.mkControls "Turn camera off"
                 (Some (if isFrozen app then "Resume live view"
                        else "Freeze frame")))
    else None.
Proof. unfold render, CameraControls. by destruct (isCameraOn app). Qed.

(** ** Invariants of the event loop *)

Lemma runEvents_invariant (colord_toName chroma_name : Resolver)
    (P : App → Prop) :
  (∀ app ev, P app → P (step colord_toName chroma_name app ev)) →
  ∀ evs app, P app → P (runEvents colord_toName chroma_name app evs).
Proof.
  intros Hstep. unfold runEvents.
  induction evs as [|ev evs IH]; intros app Happ; [done|].
  cbn [foldl]. by apply IH, Hstep.
Qed.

Lemma step_colorData (colord_toName chroma_name : Resolver)
    (app : App) (ev : Event) :
  colorData (step colord_toName chroma_name app ev) = colorData app
  ∨ ∃ sample,
      colorData (step colord_toName chroma_name app ev) = Some sample
      ∧ hex sample = rgbToHex (r sample) (g sample) (b sample)
      ∧ rgb sample = rgbString (r sample) (g sample) (b sample)
      ∧ fst (run (nameColor colord_toName chroma_name (hex sample)))
        = Value (name sample).
Proof.
  assert (∀ frozen pos readWindow,
    let app' :=
      commit (captureColor colord_toName chroma_name frozen pos readWindow
                app) app in
    colorData app' = colorData app
    ∨ ∃ sample,
        colorData app' = Some sample
        ∧ hex sample = rgbToHex (r sample) (g sample) (b sample)
        ∧ rgb sample = rgbString (r sample) (g sample) (b sample)
        ∧ fst (run (nameColor colord_toName chroma_name (hex sample)))
          = Value (name sample)) as Hcommit.
  { intros frozen pos readWindow. cbv zeta.
    destruct (captureColor_effect colord_toName chroma_name frozen pos
                readWindow app [])
      as (app' & calls & Hrun & _ & _ & Hcolor).
    assert (commit (captureColor colord_toName chroma_name frozen pos
                      readWindow app) app = app') as ->
      by (unfold commit, run; by rewrite Hrun).
    destruct Hcolor as [[_ ?]|(sample & ? & ? & ? & Hname)]; [by left|].
    right. exists sample. by rewrite Hname. }
  destruct ev; cbn [step]; try apply Hcommit;
    try (left;
         unfold handleToggleCamera, stopCamera, startCamera, cameraGranted,
           cameraDenied, loadedMetadata, handleToggleFreeze,
           handleCanvasClick;
         by repeat case_match).
  case_match; [apply Hcommit|by left].
Qed.

Lemma nameColor_nonempty (colord_toName chroma_name : Resolver)
    (red green blue : Z) (displayName : string) :
  fst (run (nameColor colord_toName chroma_name (rgbToHex red green blue)))
  = Value displayName →
  displayName ≠ EmptyString.
Proof.
  rewrite nameColor_run.
  assert (∀ reply n, nameFound reply = Some n →
                     capitalizeWords n ≠ EmptyString) as Hcap.
  { intros reply n Hn Hempty.
    pose proof (capitalizeFrom_length n true) as Hlen.
    rewrite <- capitalizeWords_spec, Hempty in Hlen.
    destruct reply as [[[|c s]|]|]; try discriminate Hn.
    injection Hn as <-. discriminate Hlen. }
  destruct (nameFound (colord_toName _)) as [n|] eqn:H1.
  { intros [= <-]. by eapply Hcap. }
  destruct (nameFound (chroma_name _)) as [n|] eqn:H2.
  { intros [= <-]. by eapply Hcap. }
  intros [= <-]. discriminate.
Qed.

(** In every state the loop reaches, the panel shows one record, the last
    sample or the placeholder: its swatch colour and hex text are the hex
    code of the record's channels, its rgb text is their [rgb(...)]
    string, and its heading is not empty. *)
Theorem panel_coherent (colord_toName chroma_name : Resolver)
    (video : option Video.t) (freezeFrameCanvas samplingCanvas : option Canvas.t)
    (evs : list Event) :
  let app :=
    runEvents colord_toName chroma_name
      (initialApp video freezeFrameCanvas samplingCanvas) evs in
  ∃ shown,
    View.swatch (View.panelView (render app)) = hex shown
    ∧ View.hexText (View.panelView (render app)) = JS.toUpperCase (hex shown)
    ∧ View.rgbText (View.panelView (render app)) = rgb shown
    ∧ View.heading (View.panelView (render app)) = name shown
    ∧ coherentColor shown.
Proof.
  cbv zeta.
  set (P := λ app : App,
    match colorData app with
    | Some sample => coherentColor sample
    | None => True
    end).
  assert (P (runEvents colord_toName chroma_name
               (initialApp video freezeFrameCanvas samplingCanvas) evs)) as HP.
  { apply runEvents_invariant; [|done].
    intros app ev Happ. unfold P in *.
    destruct (step_colorData colord_toName chroma_name app ev)
      as [->|(sample & -> & Hhex & Hrgb & Hname)]; [done|].
    split_and!; [done|done|]. rewrite Hhex in Hname.
    by eapply nameColor_nonempty. }
  unfold P in HP. unfold render, ColorInfoPanel. cbn.
  destruct (colorData _) as [sample|].
  - by exists sample.
  - exists defaultColor. by split_and!.
Qed.

(** Once a sample has been stored, no event ever empties [colorData]. *)
Theorem colorData_kept (colord_toName chroma_name : Resolver)
    (app : App) (evs : list Event) :
  is_Some (colorData app) →
  is_Some (colorData (runEvents colord_toName chroma_name app evs)).
Proof.
  apply (runEvents_invariant colord_toName chroma_name
           (λ app, is_Some (colorData app))).
  intros app' ev Hsome.
  destruct (step_colorData colord_toName chroma_name app' ev)
    as [->|(sample & -> & _)]; [done|by eexists].
Qed.

Lemma colorData_kept_witness :
  is_Some
    (colorData
       (runEvents (λ _, Returns None) (λ _, Throws)
          (mkApp (Some defaultColor) true false (Point.mk (1 # 2) (1 # 2))
             false None None None None ∅)
          [ToggleFreeze; ToggleCamera; CameraDenied;
           Sample (λ _ _ _, [])])).
Proof. apply colorData_kept. by eexists. Defined.

(** When neither library ever yields a name, the heading of the panel is
    the placeholder's or the very text the panel prints as the hex code. *)
Theorem heading_without_names (colord_toName chroma_name : Resolver)
    (video : option Video.t) (freezeFrameCanvas samplingCanvas : option Canvas.t)
    (evs : list Event) :
  (∀ code, nameFound (colord_toName code) = None) →
  (∀ code, nameFound (chroma_name code) = None) →
  let panel :=
    View.panelView
      (render (runEvents colord_toName chroma_name
                 (initialApp video freezeFrameCanvas samplingCanvas) evs)) in
  View.heading panel = "Aim at a color"
  ∨ View.heading panel = View.hexText panel.
Proof.
  intros Hcolord Hchroma. cbv zeta.
  set (P := λ app : App,
    match colorData app with
    | Some sample => name sample = JS.toUpperCase (hex sample)
    | None => True
    end).
  assert (P (runEvents colord_toName chroma_name
               (initialApp video freezeFrameCanvas samplingCanvas) evs)) as HP.
  { apply runEvents_invariant; [|done].
    intros app ev Happ. unfold P in *.
    destruct (step_colorData colord_toName chroma_name app ev)
      as [->|(sample & -> & _ & _ & Hname)]; [done|].
    rewrite nameColor_run, Hcolord, Hchroma in Hname. cbn in Hname.
    by injection Hname. }
  unfold P in HP. unfold render, ColorInfoPanel. cbn.
  destruct (colorData _) as [sample|]; [by right|by left].
Qed.

Lemma heading_without_names_witness :
  let panel :=
    View.panelView
      (render
         (runEvents (λ _, Returns None) (λ _, Throws)
            (initialApp (Some (Video.mk None true 4 640 480)) None
               (Some (Canvas.mk 1 1 true)))
            [ToggleCamera; LoadedMetadata;
             Sample (λ _ _ _, concat (replicate 25 [171; 205; 239; 255]))])) in
  View.heading panel = "Aim at a color"
  ∨ View.heading panel = View.hexText panel.
Proof.
  apply (heading_without_names (λ _, Returns None) (λ _, Throws));
    reflexivity.
Defined.

Example heading_without_names_ex :
  View.heading
    (View.panelView
       (render
          (runEvents (λ _, Returns None) (λ _, Throws)
             (initialApp (Some (Video.mk None true 4 640 480)) None
                (Some (Canvas.mk 1 1 true)))
             [ToggleCamera; LoadedMetadata;
              Sample (λ _ _ _, concat (replicate 25 [171; 205; 239; 255]))])))
  = "#ABCDEF".
Proof. reflexivity. Qed.

(** The camera is never on and starting at once, so in every state the
    loop reaches the render shows exactly one of the camera controls, the
    spinner and the start splash. *)
Theorem one_overlay (colord_toName chroma_name : Resolver)
    (video : option Video.t) (freezeFrameCanvas samplingCanvas : option Canvas.t)
    (evs : list Event) :
  let app :=
    runEvents colord_toName chroma_name
      (initialApp video freezeFrameCanvas samplingCanvas) evs in
  isCameraOn app && isStartingCamera app = false
  ∧ (bool_decide (is_Some (View.controlsView (render app))),
     View.spinner (render app), View.splash (render app))
    ∈ [(true, false, false); (false, true, false); (false, false, true)].
Proof.
  cbv zeta.
  assert (isCameraOn
            (runEvents colord_toName chroma_name
               (initialApp video freezeFrameCanvas samplingCanvas) evs)
          && isStartingCamera
               (runEvents colord_toName chroma_name
                  (initialApp video freezeFrameCanvas samplingCanvas) evs)
          = false) as Hinv.
  { apply (runEvents_invariant colord_toName chroma_name
             (λ app, isCameraOn app && isStartingCamera app = false));
      [|done].
    intros app ev Happ. destruct ev; cbn [step].
    - by destruct app as [? [|] ? ? ? [?|] [?|] ? ? ?].
    - unfold cameraGranted. by repeat case_match.
    - by destruct app as [? [|] ? ? ? ? ? ? ? ?].
    - by destruct app as [? ? ? ? ? ? [?|] ? ? ?].
    - by case_match.
    - unfold handleToggleFreeze. by repeat case_match.
    - unfold handleCanvasClick. by case_match.
    - case_match; [|done].
      pose proof (commit_captureColor_frame colord_toName chroma_name (isFrozen app)
                    (crosshairPosition app) readWindow app) as Hframe.
      destruct Hframe as (Hon & _ & _ & Hstarting & _).
      by rewrite Hon, Hstarting.
    - pose proof (commit_captureColor_frame colord_toName chroma_name closedFrozen
                    closedPosition readWindow app) as Hframe.
      destruct Hframe as (Hon & _ & _ & Hstarting & _).
      by rewrite Hon, Hstarting. }
  split; [done|]. unfold render. cbn.
  destruct (isCameraOn _), (isStartingCamera _); try done; cbn;
    rewrite !elem_of_cons; auto.
Qed.

(** The video element plays the stream the application holds, and no
    other: its source and the stored handle are set and cleared together. *)
Theorem video_source_is_stream (colord_toName chroma_name : Resolver)
    (paused : bool) (readyState videoWidth videoHeight : Z)
    (freezeFrameCanvas samplingCanvas : option Canvas.t) (evs : list Event) :
  let app :=
    runEvents colord_toName chroma_name
      (initialApp
         (Some (Video.mk None paused readyState videoWidth videoHeight))
         freezeFrameCanvas samplingCanvas) evs in
  ∃ video, videoRef app = Some video ∧ Video.srcObject video = streamRef app.
Proof.
  cbv zeta.
  apply (runEvents_invariant colord_toName chroma_name
           (λ app, ∃ video, videoRef app = Some video
                            ∧ Video.srcObject video = streamRef app));
    [|by eexists].
  intros app ev (video & Hvideo & Hsrc). destruct ev; cbn [step].
  - destruct app as [? [|] ? ? ? [?|] ? ? ? ?]; cbn in *; subst;
      by eexists.
  - unfold cameraGranted. cbn. rewrite Hvideo. by eexists.
  - by eexists.
  - unfold loadedMetadata. rewrite Hvideo. by eexists.
  - rewrite Hvideo. by eexists.
  - unfold handleToggleFreeze. rewrite Hvideo.
    repeat case_match; by eexists.
  - unfold handleCanvasClick. case_match; by eexists.
  - case_match; [|by eexists].
    pose proof (commit_captureColor_frame colord_toName chroma_name (isFrozen app)
                  (crosshairPosition app) readWindow app) as Hframe.
    destruct Hframe as (_ & _ & _ & _ & Hstream & Hv & _).
    rewrite Hstream, Hv. by eexists.
  - pose proof (commit_captureColor_frame colord_toName chroma_name closedFrozen
                  closedPosition readWindow app) as Hframe.
    destruct Hframe as (_ & _ & _ & _ & Hstream & Hv & _).
    rewrite Hstream, Hv. by eexists.
Qed.

Lemma offeredRun_invariant (colord_toName chroma_name : Resolver)
    (P : App → Prop) :
  (∀ app ev, P app → offered app ev →
             P (step colord_toName chroma_name app ev)) →
  ∀ evs app, P app → offeredRun colord_toName chroma_name app evs →
             P (runEvents colord_toName chroma_name app evs).
Proof.
  intros Hstep. unfold runEvents.
  induction evs as [|ev evs IH]; intros app Happ Hrun; [done|].
  destruct Hrun as [Hev Hrun]. cbn [foldl]. apply IH; [|done].
  by apply Hstep.
Qed.

(** As long as the user can only press what is rendered, the view is
    frozen only while the camera is on, so a frozen still is never shown
    without the controls that resume or stop it. *)
Theorem frozen_only_while_on (colord_toName chroma_name : Resolver)
    (video : option Video.t) (freezeFrameCanvas samplingCanvas : option Canvas.t)
    (evs : list Event) :
  offeredRun colord_toName chroma_name
    (initialApp video freezeFrameCanvas samplingCanvas) evs →
  let app :=
    runEvents colord_toName chroma_name
      (initialApp video freezeFrameCanvas samplingCanvas) evs in
  implb (isFrozen app) (isCameraOn app) = true
  ∧ implb (View.freezeCanvasOpaque (render app))
          (bool_decide (is_Some (View.controlsView (render app)))) = true.
Proof.
  intros Hrun. cbv zeta.
  assert (implb
            (isFrozen
               (runEvents colord_toName chroma_name
                  (initialApp video freezeFrameCanvas samplingCanvas) evs))
            (isCameraOn
               (runEvents colord_toName chroma_name
                  (initialApp video freezeFrameCanvas samplingCanvas) evs))
          = true) as Hinv.
  { revert Hrun.
    apply (offeredRun_invariant colord_toName chroma_name
             (λ app, implb (isFrozen app) (isCameraOn app) = true));
      [|done].
    intros app ev Happ Hev. destruct ev; cbn [step offered] in *.
    - by destruct app as [? [|] ? ? ? [?|] [?|] ? ? ?].
    - unfold cameraGranted. by repeat case_match.
    - done.
    - destruct app as [? ? [|] ? ? ? [?|] ? ? ?]; done.
    - by case_match.
    - destruct Hev as (controls & Hcontrols & _).
      destruct app as [? [|] [|] ? ? ? [?|] [?|] ? ?]; done.
    - unfold handleCanvasClick. by case_match.
    - case_match; [|done].
      pose proof (commit_captureColor_frame colord_toName chroma_name (isFrozen app)
                    (crosshairPosition app) readWindow app) as Hframe.
      destruct Hframe as (Hon & Hfrozen & _). by rewrite Hon, Hfrozen.
    - pose proof (commit_captureColor_frame colord_toName chroma_name closedFrozen
                    closedPosition readWindow app) as Hframe.
      destruct Hframe as (Hon & Hfrozen & _). by rewrite Hon, Hfrozen. }
  split; [done|]. unfold render. cbn.
  destruct (isFrozen _), (isCameraOn _); done.
Qed.

Lemma frozen_only_while_on_witness :
  let app :=
    runEvents (λ _, Returns None) (λ _, Throws)
      (initialApp (Some (Video.mk None true 0 0 0))
         (Some (Canvas.mk 300 150 true)) (Some (Canvas.mk 1 1 true)))
      [ToggleCamera; CameraGranted (mkStream [1%nat]);
       VideoUpdate 4 1920 1080; LoadedMetadata; ToggleFreeze;
       CanvasClick (mkMouse 100 430 (DOMRect.mk 0 30 400 800))] in
  implb (isFrozen app) (isCameraOn app) = true
  ∧ implb (View.freezeCanvasOpaque (render app))
          (bool_decide (is_Some (View.controlsView (render app)))) = true.
Proof.
  apply (frozen_only_while_on (λ _, Returns None) (λ _, Throws)).
  cbn. split_and!; try exact I; try reflexivity.
  - by right.
  - eexists. split; [reflexivity|]. by eexists.
Defined.

(** The handler itself does not look at the camera: pressed while the
    camera is off, it freezes the view all the same. *)
Example freeze_without_camera :
  let app :=
    runEvents (λ _, Returns None) (λ _, Throws)
      (initialApp (Some (Video.mk None true 0 0 0))
         (Some (Canvas.mk 300 150 true)) (Some (Canvas.mk 1 1 true)))
      [ToggleFreeze] in
  isFrozen app = true ∧ isCameraOn app = false.
Proof. split; reflexivity. Qed.

(** ** The live window *)

Lemma live_corner (sourceDimension : Z) :
  windowCorner (inject_Z sourceDimension / 2) sourceDimension
  = if sourceDimension <? 6 then 0 else (sourceDimension - 3) / 2.
Proof.
  destruct (Z.ltb_spec sourceDimension 6) as [Hlt|Hge].
  - destruct (Z.lt_ge_cases sourceDimension 5) as [H5|H5];
      [by apply windowCorner_small|].
    assert (sourceDimension = 5) as -> by lia. reflexivity.
  - unfold windowCorner. rewrite halfSampleSize_eq. unfold sampleSize.
    change (inject_Z 2) with 2%Q. change (inject_Z 5) with 5%Q.
    apply Math_round_spec.
    set (z := (sourceDimension - 3) / 2).
    assert (2 * z ≤ sourceDimension - 3 < 2 * z + 2) as [Hlo Hhi].
    { pose proof (Z.div_mod (sourceDimension - 3) 2 ltac:(lia)) as Hdm.
      pose proof (Z.mod_pos_bound (sourceDimension - 3) 2 ltac:(lia)).
      subst z. lia. }
    rewrite Zle_Qle in Hlo. rewrite Zlt_Qlt in Hhi.
    assert (inject_Z 6 <= inject_Z sourceDimension)%Q as Hq
      by (rewrite <- Zle_Qle; lia).
    unfold Z.sub in *.
    rewrite ?inject_Z_plus, ?inject_Z_mult, ?inject_Z_opp in *.
    change (inject_Z 2) with 2%Q in *. change (inject_Z 3) with 3%Q in *.
    change (inject_Z 6) with 6%Q in *.
    assert (inject_Z sourceDimension / 2 == inject_Z sourceDimension * (1 # 2))%Q
      as Hhalf by field.
    minmax_cases; rewrite ?Hhalf in *; split; lra.
Qed.

(** While live, the corner of the window depends on the size of the source
    alone: 0 on an axis shorter than 6 and [floor((size - 3) / 2)]
    otherwise, which centres the window on pixel [floor((size + 1) / 2)]. *)
Theorem live_window_corner (crosshairPosition : CrosshairPosition)
    (sourceWidth sourceHeight : Z) :
  windowCorner
    (sampleCenter false crosshairPosition sourceWidth sourceHeight).1
    sourceWidth
  = (if sourceWidth <? 6 then 0 else (sourceWidth - 3) / 2)
  ∧ windowCorner
      (sampleCenter false crosshairPosition sourceWidth sourceHeight).2
      sourceHeight
    = (if sourceHeight <? 6 then 0 else (sourceHeight - 3) / 2).
Proof. split; apply live_corner. Qed.

Example live_window_corner_ex :
  windowCorner (inject_Z 1920 / 2) 1920 = 958
  ∧ windowCorner (inject_Z 1081 / 2) 1081 = 539.
Proof. split; reflexivity. Qed.

(** ** A whole pass *)

(** A pass that passes its guards and reads back 100 entries stores the
    sample whose channels are the integers nearest to the channel means of
    the window read, the window whose corner is the clamped corner of the
    target centre in the selected source. *)
Theorem captureColor_stores_mean (colord_toName chroma_name : Resolver)
    (frozen : bool) (pos : CrosshairPosition)
    (readWindow : Source → Z → Z → list Z) (app : App)
    (src : Source) (sourceWidth sourceHeight : Z) :
  selectSource frozen app = Some (src, sourceWidth, sourceHeight) →
  canSample frozen app = true →
  let center := sampleCenter frozen pos sourceWidth sourceHeight in
  let pixelData :=
    readWindow src (windowCorner center.1 sourceWidth)
                   (windowCorner center.2 sourceHeight) in
  length pixelData = 100%nat →
  ∃ sample,
    colorData
      (commit (captureColor colord_toName chroma_name frozen pos readWindow
                 app) app) = Some sample
    ∧ nearestInteger (channelMean 0 pixelData) (r sample)
    ∧ nearestInteger (channelMean 1 pixelData) (g sample)
    ∧ nearestInteger (channelMean 2 pixelData) (b sample).
Proof.
  intros Hsource Hcan. cbv zeta. intros Hlen.
  destruct (captureColor_sampling colord_toName chroma_name frozen pos
              readWindow app [] Hcan)
    as (src' & w' & h' & app' & calls & Hsource' & _ & _ & Hrun & Hres).
  rewrite Hsource in Hsource'. injection Hsource' as <- <- <-.
  cbv zeta in Hres. rewrite sampleAverage_closed in Hres by done.
  destruct Hres as (displayName & _ & ->).
  unfold commit, run. rewrite Hrun. eexists. split; [reflexivity|].
  cbn [r g b]. split_and!; apply Math_round_mean_nearest.
Qed.

Lemma captureColor_stores_mean_witness :
  ∃ sample,
    colorData
      (commit
         (captureColor (λ _, Returns (Some "sky")) (λ _, Throws) false
            (Point.mk (1 # 2) (1 # 2))
            (λ _ sx sy, concat (replicate 25 [sx; sy; 7; 255]))
            (initialApp (Some (Video.mk None false 4 1920 1080)) None
               (Some (Canvas.mk 1 1 true))))
         (initialApp (Some (Video.mk None false 4 1920 1080)) None
            (Some (Canvas.mk 1 1 true))))
    = Some sample
    ∧ nearestInteger
        (channelMean 0 (concat (replicate 25 [958; 538; 7; 255]))) (r sample)
    ∧ nearestInteger
        (channelMean 1 (concat (replicate 25 [958; 538; 7; 255]))) (g sample)
    ∧ nearestInteger
        (channelMean 2 (concat (replicate 25 [958; 538; 7; 255]))) (b sample).
Proof.
  apply (captureColor_stores_mean (λ _, Returns (Some "sky")) (λ _, Throws)
           false (Point.mk (1 # 2) (1 # 2))
           (λ _ sx sy, concat (replicate 25 [sx; sy; 7; 255]))
           (initialApp (Some (Video.mk None false 4 1920 1080)) None
              (Some (Canvas.mk 1 1 true)))
           LiveVideo 1920 1080); reflexivity.
Defined.

(** ** The two revisions *)

(** For a hex code that colord cannot name, the second revision shows the
    name the first revision shows; the only difference is the call to
    colord that precedes the call to chroma-js. *)
Theorem revisions_agree_without_colord (colord_toName chroma_name : Resolver)
    (code : string) :
  nameFound (colord_toName code) = None →
  fst (run (nameColor colord_toName chroma_name code))
  = fst (run (nameColor_rev1 chroma_name code))
  ∧ snd (run (nameColor colord_toName chroma_name code))
    = CallColord code :: snd (run (nameColor_rev1 chroma_name code)).
Proof.
  unfold run, nameColor, nameColor_rev1, resolveColorName, mbind, M_bind,
    bind, try_catch, call, mret, M_ret, ret.
  destruct (colord_toName code) as [[[|c s]|]|];
    destruct (chroma_name code) as [[[|c' s']|]|]; done.
Qed.

Lemma revisions_agree_without_colord_witness :
  fst (run (nameColor (λ _, Throws) (λ _, Returns (Some "sky blue")) "#87ceeb"))
  = fst (run (nameColor_rev1 (λ _, Returns (Some "sky blue")) "#87ceeb"))
  ∧ snd (run (nameColor (λ _, Throws) (λ _, Returns (Some "sky blue"))
                "#87ceeb"))
    = CallColord "#87ceeb"
      :: snd (run (nameColor_rev1 (λ _, Returns (Some "sky blue")) "#87ceeb")).
Proof.
  apply (revisions_agree_without_colord (λ _, Throws)
           (λ _, Returns (Some "sky blue")) "#87ceeb").
  reflexivity.
Defined.
